(** * copilot_scan: a text-pattern scanner for project conventions

    A shallow embedding of [tools/copilot_scan.py] and the properties of its
    rule engine.  The script reads every [.cs] file below [Assets], runs six
    textual rules over the decoded text and collects one report line per
    violation.

    Python values are modelled as follows.
    - A [str] is the list of its Unicode code points ([N]).
    - [re] patterns are values of [regex], run by a backtracking matcher with
      the priorities of Python's engine (leftmost alternative first, greedy
      repetition and option).
    - A list index that is out of range raises [IndexError]; an indexing
      expression is [nth_error] and the rule is a computation in [option],
      [None] standing for the exception, which nothing in the script catches.
    - An entry of [results] is an f-string; [Finding] keeps the values that
      are interpolated into it.
    - The tables of the Unicode database that the Python runtime consults for
      code points above 127 (alphanumeric characters for [\w] and [\b], the
      lowercase mapping of [str.lower]) are not part of the script: they are
      the fields of [unicode_db], over which everything is stated. *)

From Stdlib Require Import String Ascii NArith ZArith Bool Lia PeanoNat List.
From Stdlib Require Import Sorted.
Import ListNotations.

Local Open Scope string_scope.
Local Open Scope list_scope.
Local Open Scope nat_scope.

(* ================================================================= *)
(** ** Python strings *)

Definition str := list N.

(** A string literal of the script whose characters are all ASCII. *)
Definition py (s : string) : str := map N_of_ascii (list_ascii_of_string s).

Definition LF : N := 10.
Definition CR : N := 13.

(** Lines joined by ['\n'], for writing down the text of a file. *)
Fixpoint text_of (ls : list string) : str :=
  match ls with
  | [] => []
  | [l] => py l
  | l :: ls' => py l ++ LF :: text_of ls'
  end.

(** What the runtime's Unicode database contributes above code point 127. *)
Record unicode_db := {
  uni_alnum : N -> bool;      (* str.isalnum of a one-character string *)
  uni_lower : str -> str      (* str.lower of a string that is not all ASCII *)
}.

(** The database of a runtime that knows no character above 127; any
    database agrees with it on ASCII text. *)
Definition ascii_tables : unicode_db :=
  {| uni_alnum := fun _ => false; uni_lower := fun s => s |}.

(** [s.startswith(p)] *)
Fixpoint startswith (s p : str) : bool :=
  match p, s with
  | [], _ => true
  | a :: p', c :: s' => N.eqb a c && startswith s' p'
  | _ :: _, [] => false
  end.

(** [t in s] *)
Fixpoint contains (t s : str) : bool :=
  startswith s t ||
  match s with
  | [] => false
  | _ :: s' => contains t s'
  end.

(** [s.endswith(p)] *)
Definition endswith (s p : str) : bool := startswith (rev s) (rev p).

(** [s.find(t)]: the least index at which [t] occurs, [-1] when there is none. *)
Fixpoint find_from (t s : str) (i : Z) : Z :=
  if startswith s t then i
  else match s with
       | [] => (-1)%Z
       | _ :: s' => find_from t s' (i + 1)%Z
       end.

Definition find (t s : str) : Z := find_from t s 0%Z.

Definition between (lo hi c : N) : bool := N.leb lo c && N.leb c hi.

(** [str.isspace] of one character; also the class [\s] of a [str] pattern. *)
Definition isspace (c : N) : bool :=
  between 9 13 c || between 28 32 c || N.eqb c 133 || N.eqb c 160 ||
  N.eqb c 5760 || between 8192 8202 c || N.eqb c 8232 || N.eqb c 8233 ||
  N.eqb c 8239 || N.eqb c 8287 || N.eqb c 12288.

(** The characters at which [str.splitlines] ends a line. *)
Definition islinebreak (c : N) : bool :=
  between 10 13 c || between 28 30 c || N.eqb c 133 || N.eqb c 8232 ||
  N.eqb c 8233.

(** [s.lstrip()], [s.rstrip()], [s.strip()] *)
Fixpoint lstrip (s : str) : str :=
  match s with
  | c :: s' => if isspace c then lstrip s' else s
  | [] => []
  end.

Definition rstrip (s : str) : str := rev (lstrip (rev s)).

Definition strip (s : str) : str := lstrip (rstrip s).

(** [s.splitlines()]: [cur] is the line being read, last character first.
    A ['\r'] directly followed by ['\n'] ends one line, not two, and a text
    that ends in a line break has no empty last line. *)
Fixpoint splitlines_from (cur s : str) : list str :=
  match s with
  | [] => match cur with
          | [] => []
          | _ :: _ => [rev cur]
          end
  | c :: s' =>
      if islinebreak c then
        rev cur ::
        match s' with
        | c' :: s'' =>
            if N.eqb c CR && N.eqb c' LF then splitlines_from [] s''
            else splitlines_from [] s'
        | [] => []
        end
      else splitlines_from (c :: cur) s'
  end.

Definition splitlines (s : str) : list str := splitlines_from [] s.

(** [s.count(c)] for a one-character [c]. *)
Fixpoint count_chr (c : N) (s : str) : nat :=
  match s with
  | [] => 0
  | x :: s' => (if N.eqb x c then 1 else 0) + count_chr c s'
  end.

(** [s.rfind(c)] for a one-character [c], reading [s] from index [i] on;
    [last] is the answer so far. *)
Fixpoint rfind_chr (c : N) (s : str) (i last : Z) : Z :=
  match s with
  | [] => last
  | x :: s' => rfind_chr c s' (i + 1)%Z (if N.eqb x c then i else last)
  end.

(** [text.count('\n', 0, idx) + 1] *)
Definition line_of (text : str) (idx : nat) : nat :=
  count_chr LF (firstn idx text) + 1.

(** [idx - text.rfind('\n', 0, idx)] *)
Definition col_of (text : str) (idx : nat) : Z :=
  (Z.of_nat idx - rfind_chr LF (firstn idx text) 0 (-1))%Z.

Definition ascii_alnum (c : N) : bool :=
  between 48 57 c || between 65 90 c || between 97 122 c.

Definition ascii_lower (c : N) : N :=
  if between 65 90 c then (c + 32)%N else c.

Definition isascii (s : str) : bool := forallb (fun c => N.ltb c 128) s.

(* ================================================================= *)
(** ** Settings and findings *)

(** [cfg] after the defaults were updated from the configuration file.  A
    toggle is the truth value of the entry (the script only tests it). *)
Record Settings := {
  CheckNativeArray_on : bool;
  CheckNulls_on : bool;
  CheckSealedClasses_on : bool;
  CheckBurstRef_on : bool;
  CheckEntityNull_on : bool;
  CheckStoryComments_on : bool;
  IgnoreFolderTokens : list str;
  ExemptEditorNullChecks : bool
}.

(** The defaults of the script. *)
Definition cfg_default : Settings :=
  {| CheckNativeArray_on := true;
     CheckNulls_on := true;
     CheckSealedClasses_on := true;
     CheckBurstRef_on := true;
     CheckEntityNull_on := true;
     CheckStoryComments_on := true;
     IgnoreFolderTokens :=
       [py "Library"; py "Temp"; py "Packages"; py "Build"; py "obj"];
     ExemptEditorNullChecks := true |}.

(** An entry of [results].
    [Located tag path ln col msg] is [f"[{tag}] {path}:{ln}:{col} -> {msg}"];
    [ReadError path e] is [f"[Error] Could not read {path}: {e}"]. *)
Inductive Finding :=
| Located (tag : string) (path : str) (ln : nat) (col : Z) (msg : str)
| ReadError (path : str) (e : str).

(** [None] is an [IndexError] that ends the run. *)
Definition bind {A B} (x : option A) (f : A -> option B) : option B :=
  match x with
  | Some a => f a
  | None => None
  end.

Notation "x <- e ;; k" := (bind e (fun x => k))
  (at level 61, e at next level, right associativity).

(** A [for] loop whose body appends findings to [results]. *)
Fixpoint for_each {A} (body : A -> option (list Finding)) (xs : list A)
  : option (list Finding) :=
  match xs with
  | [] => Some []
  | x :: xs' =>
      r <- body x ;;
      rs <- for_each body xs' ;;
      Some (r ++ rs)
  end.

(** [ignore_markers]: the ASCII token and two four-character strings, as the
    source file spells them. *)
Definition ignore_markers : list str :=
  [py "copilot-ignore"; [240; 376; 353; 171]%N; [240; 376; 8250; 8216]%N].

(** [any(tok in line for tok in ignore_markers)] *)
Definition has_marker (line : str) : bool :=
  existsb (fun tok => contains tok line) ignore_markers.

(* ================================================================= *)
(** ** Regular expressions *)

(** The fragment of [re] syntax that the script's patterns use.  A
    repetition is always over a one-character class. *)
Inductive regex :=
| Lit (w : str)                 (* a literal string *)
| Cls (p : N -> bool)           (* one character of a class *)
| Star (p : N -> bool)          (* "p*", greedy *)
| Bol                           (* [^] under [re.M] *)
| WordB                         (* [\b] *)
| Seq (a b : regex)
| Alt (a b : regex)             (* [a|b] *)
| Opt (a : regex)               (* [a?], greedy *)
| Group (n : nat) (a : regex).  (* the capturing group number [n] *)

(** [p+] *)
Definition plus (p : N -> bool) : regex := Seq (Cls p) (Star p).

Fixpoint cat (rs : list regex) : regex :=
  match rs with
  | [] => Lit []
  | [r] => r
  | r :: rs' => Seq r (cat rs')
  end.

(** The text of the groups that took part in a match, latest first. *)
Definition caps := list (nat * str).

Fixpoint cap_lookup (g : caps) (n : nat) : option str :=
  match g with
  | [] => None
  | (k, s) :: g' => if Nat.eqb k n then Some s else cap_lookup g' n
  end.

(** A match object: [m.start()] and the groups. *)
Record Match := { m_start : nat; m_caps : caps }.

(** [m.group(n)]; [None] when the group did not take part. *)
Definition group (m : Match) (n : nat) : option str := cap_lookup (m_caps m) n.

(** The truth value of [m.group(n)]. *)
Definition truthy (o : option str) : bool :=
  match o with
  | Some (_ :: _) => true
  | _ => false
  end.

(** [m.group(n) or ''] *)
Definition group_or_empty (m : Match) (n : nat) : str :=
  match group m n with
  | Some s => s
  | None => []
  end.

(** [^] under [re.M]: at the start of the text or just after a ['\n']. *)
Definition at_bol (prev : option N) : bool :=
  match prev with
  | None => true
  | Some c => N.eqb c LF
  end.

(** A literal, character by character; the last character read becomes the
    character before the cursor. *)
Fixpoint lit (w : str) (prev : option N) (s : str) : option (option N * str) :=
  match w, s with
  | [], _ => Some (prev, s)
  | a :: w', c :: s' => if N.eqb a c then lit w' (Some c) s' else None
  | _ :: _, [] => None
  end.

Section Scanner.

Variable U : unicode_db.

(** [s.lower()] *)
Definition lower (s : str) : str :=
  if isascii s then map ascii_lower s else uni_lower U s.

(** The class [\w] of a [str] pattern: alphanumeric or the underscore. *)
Definition is_word (c : N) : bool :=
  if N.ltb c 128 then ascii_alnum c || N.eqb c 95 else uni_alnum U c.

Definition is_word_opt (o : option N) : bool :=
  match o with
  | Some c => is_word c
  | None => false
  end.

(** [\b]: exactly one of the characters around the cursor is a word
    character; the outside of the text counts as none. *)
Definition at_word_boundary (prev : option N) (s : str) : bool :=
  xorb (is_word_opt prev) (is_word_opt (hd_error s)).

(** The matcher.  The cursor is the character before it ([prev], [None] at
    the start of the text) and the text from it on ([s]); [k] is what
    remains to be matched and is tried again, after a failure, at the next
    shorter repetition or the next alternative. *)
Definition cont := option N -> str -> caps -> option (str * caps).

Fixpoint star (p : N -> bool) (prev : option N) (s : str) (g : caps) (k : cont)
  : option (str * caps) :=
  match s with
  | c :: s' =>
      if p c then
        match star p (Some c) s' g k with
        | Some r => Some r
        | None => k prev s g
        end
      else k prev s g
  | [] => k prev s g
  end.

Fixpoint rmatch (r : regex) (prev : option N) (s : str) (g : caps) (k : cont)
  : option (str * caps) :=
  match r with
  | Lit w =>
      match lit w prev s with
      | Some (prev', s') => k prev' s' g
      | None => None
      end
  | Cls p =>
      match s with
      | c :: s' => if p c then k (Some c) s' g else None
      | [] => None
      end
  | Star p => star p prev s g k
  | Bol => if at_bol prev then k prev s g else None
  | WordB => if at_word_boundary prev s then k prev s g else None
  | Seq a b => rmatch a prev s g (fun prev' s' g' => rmatch b prev' s' g' k)
  | Alt a b =>
      match rmatch a prev s g k with
      | Some res => Some res
      | None => rmatch b prev s g k
      end
  | Opt a =>
      match rmatch a prev s g k with
      | Some res => Some res
      | None => k prev s g
      end
  | Group n a =>
      rmatch a prev s g
        (fun prev' s' g' =>
           k prev' s' ((n, firstn (length s - length s') s) :: g'))
  end.

(** A match of the whole pattern at the cursor: what is left of the text
    after it, and the groups. *)
Definition match_here (r : regex) (prev : option N) (s : str)
  : option (str * caps) :=
  rmatch r prev s [] (fun _ s' g => Some (s', g)).

(** A pattern that has no match at the very end of the text. *)
Definition needs_text (r : regex) : Prop :=
  forall prev, match_here r prev [] = None.

(** [r.finditer(text)]: the matches from left to right, none overlapping.
    [idx] is the index of the cursor and [skip] the number of characters
    still covered by the last match, at which no match may start.  (After a
    match of length zero the search moves on by one character; no pattern of
    the script has such a match.) *)
Fixpoint finditer_from (r : regex) (prev : option N) (s : str) (idx skip : nat)
  : list Match :=
  match skip with
  | S skip' =>
      match s with
      | [] => []
      | c :: s' => finditer_from r (Some c) s' (S idx) skip'
      end
  | O =>
      match match_here r prev s with
      | Some (s_end, g) =>
          {| m_start := idx; m_caps := g |} ::
          match s with
          | [] => []
          | c :: s' =>
              finditer_from r (Some c) s' (S idx) (length s - length s_end - 1)
          end
      | None =>
          match s with
          | [] => []
          | c :: s' => finditer_from r (Some c) s' (S idx) 0
          end
      end
  end.

Definition finditer (r : regex) (text : str) : list Match :=
  finditer_from r None text 0 0.

(** The truth value of [r.search(text)]: there is a match somewhere. *)
Definition search (r : regex) (text : str) : bool :=
  match finditer r text with
  | [] => false
  | _ :: _ => true
  end.

(* ----------------------------------------------------------------- *)
(** *** The patterns of the script *)

Definition ident_start (c : N) : bool :=
  between 65 90 c || between 97 122 c || N.eqb c 95.

Definition ident_char (c : N) : bool :=
  between 65 90 c || between 97 122 c || between 48 57 c || N.eqb c 95.

Definition not_eol (c : N) : bool := negb (N.eqb c LF || N.eqb c CR).

(** r"[A-Za-z_][A-Za-z0-9_]*" *)
Definition identifier : regex := Seq (Cls ident_start) (Star ident_char).

(** r"\bNativeArray\s*<" *)
Definition pat_NativeArray : regex :=
  cat [WordB; Lit (py "NativeArray"); Star isspace; Lit (py "<")].

(** r"\bnull\b|==\s*null|=\s*null" *)
Definition pat_Null : regex :=
  Alt (cat [WordB; Lit (py "null"); WordB])
      (Alt (cat [Lit (py "=="); Star isspace; Lit (py "null")])
           (cat [Lit (py "="); Star isspace; Lit (py "null")])).

(** r"\bEntity\.Null\b" *)
Definition pat_EntityNull : regex :=
  cat [WordB; Lit (py "Entity.Null"); WordB].

(** r"^\s*(public|internal|private|protected)?\s*(partial\s+)?(sealed\s+)?"
    r"(static\s+)?(abstract\s+)?class\s+([A-Za-z_][A-Za-z0-9_]*" r")"
    compiled with re.M; the groups are numbered as in the source. *)
Definition pat_Class : regex :=
  cat [Bol; Star isspace;
       Opt (Group 1 (Alt (Lit (py "public"))
                    (Alt (Lit (py "internal"))
                    (Alt (Lit (py "private")) (Lit (py "protected"))))));
       Star isspace;
       Opt (Group 2 (Seq (Lit (py "partial")) (plus isspace)));
       Opt (Group 3 (Seq (Lit (py "sealed")) (plus isspace)));
       Opt (Group 4 (Seq (Lit (py "static")) (plus isspace)));
       Opt (Group 5 (Seq (Lit (py "abstract")) (plus isspace)));
       Lit (py "class"); plus isspace;
       Group 6 identifier].

(** r"\[BurstCompile\b" *)
Definition pat_Burst : regex := cat [Lit (py "[BurstCompile"); WordB].

(** r"^\s*public\s+(partial\s+)?(struct|class)\s+([A-Za-z_][A-Za-z0-9_]*"
    r")([^\n\r]*" r")" compiled with re.M *)
Definition public_type_pattern : regex :=
  cat [Bol; Star isspace; Lit (py "public"); plus isspace;
       Opt (Group 1 (Seq (Lit (py "partial")) (plus isspace)));
       Group 2 (Alt (Lit (py "struct")) (Lit (py "class")));
       plus isspace;
       Group 3 identifier;
       Group 4 (Star not_eol)].

Definition interesting_tokens : list str :=
  [py "SystemBase"; py "ISystem"; py "ComponentSystemBase";
   py "IComponentData"; py "ISharedComponentData"; py "IBufferElementData";
   py "MonoBehaviour"; py "Baker"; py "Authoring"; py "IBaker"].

(** [any(t in s for t in interesting_tokens)] *)
Definition has_token (s : str) : bool :=
  existsb (fun t => contains t s) interesting_tokens.

(* ================================================================= *)
(** ** The rules

    Each rule is the block of the per-file loop body that its toggle
    guards; [relPath] and [text] are the variables of that loop. *)

Definition msg_NativeArray : str :=
  py "consider DynamicBuffer or BlobAsset configuration".
Definition msg_Null : str := py "'null' found. Policy: no nulls allowed.".
Definition msg_Unsealed (name : str) : str :=
  py "class '" ++ name ++ py "' is not sealed.".
Definition msg_EntityNull : str :=
  py "usage of Entity.Null found. Replace with explicit sentinel or valid Entity reference.".
Definition msg_BurstRef : str :=
  py "'ref' parameter near [BurstCompile] attribute. Avoid refs in Burst.".
Definition msg_StoryMissing : str :=
  py "public system/component/authoring type missing leading '// Story: ...' comment.".
Definition msg_StoryShort : str :=
  py "'Story' comment too short (min 20 chars).".

(** [text.splitlines()[i]] *)
Definition line_at (text : str) (i : nat) : option str :=
  nth_error (splitlines text) i.

(** *** NativeArray *)

Definition NativeArray_hit (relPath text : str) (m : Match) : Finding :=
  let idx := m_start m in
  let ln := line_of text idx in
  let col := col_of text idx in
  Located "NativeArray" relPath ln col msg_NativeArray.

Definition CheckNativeArray (cfg : Settings) (relPath text : str)
  : list Finding :=
  if CheckNativeArray_on cfg && search pat_NativeArray text then
    map (NativeArray_hit relPath text) (finditer pat_NativeArray text)
  else [].

(** *** null *)

(** ['/Editor/' in ('/' + relPath)] *)
Definition in_editor (relPath : str) : bool :=
  contains (py "/Editor/") (py "/" ++ relPath).

Definition Null_hit (relPath text : str) (m : Match)
  : option (list Finding) :=
  let idx := m_start m in
  let ln := line_of text idx in
  let col := col_of text idx in
  line <- line_at text (ln - 1) ;;
  if has_marker line then Some []
  else Some [Located "Null" relPath ln col msg_Null].

Definition CheckNulls (cfg : Settings) (relPath text : str)
  : option (list Finding) :=
  if CheckNulls_on cfg then
    let exempt_editor := ExemptEditorNullChecks cfg && in_editor relPath in
    if negb exempt_editor then
      for_each (Null_hit relPath text) (finditer pat_Null text)
    else Some []
  else Some [].

(** *** Classes that are neither sealed nor static *)

(** [{name}] in the f-string, for [name = m.group(6)]. *)
Definition fmt_group (o : option str) : str :=
  match o with
  | Some s => s
  | None => py "None"
  end.

Definition Class_hit (relPath text : str) (m : Match) : list Finding :=
  let sealed := group m 3 in
  let staticg := group m 4 in
  if negb (truthy sealed) && negb (truthy staticg) then
    let name := group m 6 in
    let idx := m_start m in
    let ln := line_of text idx in
    [Located "Unsealed Class" relPath ln 1 (msg_Unsealed (fmt_group name))]
  else [].

Definition CheckSealedClasses (cfg : Settings) (relPath text : str)
  : list Finding :=
  if CheckSealedClasses_on cfg then
    flat_map (Class_hit relPath text) (finditer pat_Class text)
  else [].

(** *** Entity.Null *)

Definition EntityNull_hit (relPath text : str) (m : Match)
  : option (list Finding) :=
  let idx := m_start m in
  let ln := line_of text idx in
  line <- line_at text (ln - 1) ;;
  if has_marker line then Some []
  else Some [Located "Entity.Null" relPath ln 1 msg_EntityNull].

Definition CheckEntityNull (cfg : Settings) (relPath text : str)
  : option (list Finding) :=
  if CheckEntityNull_on cfg && search pat_EntityNull text then
    for_each (EntityNull_hit relPath text) (finditer pat_EntityNull text)
  else Some [].

(** *** ref parameters near a BurstCompile attribute *)

(** The test that ends the inner loop:
    [lines[j].lstrip().startswith('{') or lines[j].lstrip().startswith('[')] *)
Definition closes_window (line : str) : bool :=
  startswith (lstrip line) (py "{") || startswith (lstrip line) (py "[").

(** The inner loop, [for j in range(i+1, end)], over the values [js] that
    [j] still has to take.  Both [continue] statements go to the next [j]
    without reaching the test that ends the loop. *)
Fixpoint burst_window (relPath : str) (lines : list str) (js : list nat)
  : option (list Finding) :=
  match js with
  | [] => Some []
  | j :: js' =>
      lj <- nth_error lines j ;;
      if contains (py "ref ") lj then
        if has_marker lj then burst_window relPath lines js'
        else if contains (py "ref SystemState") lj then
          burst_window relPath lines js'
        else
          rest <- (if closes_window lj then Some []
                   else burst_window relPath lines js') ;;
          Some (Located "Burst+ref" relPath (j + 1) 1 msg_BurstRef :: rest)
      else if closes_window lj then Some []
      else burst_window relPath lines js'
  end.

(** The finding of the inner loop for line [j + 1]. *)
Definition burst_finding (relPath : str) (j : nat) : Finding :=
  Located "Burst+ref" relPath (j + 1) 1 msg_BurstRef.

(** [range(a, b)] *)
Definition range (a b : nat) : list nat := seq a (b - a).

(** The body of [for i,l in enumerate(lines)]. *)
Definition burst_trigger (relPath : str) (lines : list str) (il : nat * str)
  : option (list Finding) :=
  let (i, l) := il in
  if search pat_Burst l then
    let end_ := Nat.min (length lines) (i + 20) in
    burst_window relPath lines (range (i + 1) end_)
  else Some [].

(** [enumerate(lines)] *)
Definition enumerate (lines : list str) : list (nat * str) :=
  combine (seq 0 (length lines)) lines.

Definition BurstRef_loop (relPath text : str) : option (list Finding) :=
  let lines := splitlines text in
  for_each (burst_trigger relPath lines) (enumerate lines).

(** *** Story comments *)

(** The [else] branch that looks for a token below the declaration: the
    loop [for k in range(ln, end + 1)] over the values [ks] of [k]. *)
Fixpoint story_lookahead (lines : list str) (ks : list nat) : option bool :=
  match ks with
  | [] => Some false
  | k :: ks' =>
      l <- nth_error lines (k - 1) ;;
      if has_token l then Some true else story_lookahead lines ks'
  end.

(** The value of [found] when the loop body tests it. *)
Definition story_interesting (text : str) (ln : nat) (decl_remainder : str)
  : option bool :=
  if has_token decl_remainder then Some true
  else
    let lines := splitlines text in
    let end_ := Nat.min (length lines) (ln - 1 + 3) in
    story_lookahead lines (range ln (end_ + 1)).

(** [s.startswith('//') and 'Story:' in s] *)
Definition is_story_line (s : str) : bool :=
  startswith s (py "//") && contains (py "Story:") s.

(** The [while prev >= 0 and ln - prev <= 6] loop; [n] is [prev + 1], so
    that [prev >= 0] is [n] being a successor.  The result is the final
    [story_idx], [None] for [-1]. *)
Fixpoint story_scan (lines : list str) (ln n : nat) : option (option nat) :=
  match n with
  | O => Some None
  | S prev =>
      if ln - prev <=? 6 then
        l <- nth_error lines prev ;;
        let s := lstrip l in
        match s with
        | [] => story_scan lines ln prev
        | _ :: _ =>
            if startswith s (py "[") then story_scan lines ln prev
            else if is_story_line s then Some (Some prev)
            else Some None
        end
      else Some None
  end.

(** The text after the marker, [txt[idx + len('story:'):].strip()], when
    [idx = txt.lower().find('story:')] is not negative. *)
Definition story_after (l : str) : option str :=
  let txt := strip l in
  let idx := find (py "story:") (lower txt) in
  if (0 <=? idx)%Z then Some (strip (skipn (Z.to_nat idx + 6) txt))
  else None.

(** The [if story_idx == -1: ... else: ...] statement. *)
Definition story_verdict (cfg : Settings) (relPath : str) (lines : list str)
    (ln : nat) (col : Z) (story_idx : option nat) : option (list Finding) :=
  match story_idx with
  | None =>
      if ExemptEditorNullChecks cfg && in_editor relPath then Some []
      else Some [Located "Story" relPath ln col msg_StoryMissing]
  | Some i =>
      l <- nth_error lines i ;;
      match story_after l with
      | Some after =>
          if length after <? 20
          then Some [Located "Story" relPath (i + 1) 1 msg_StoryShort]
          else Some []
      | None => Some []
      end
  end.

(** The body of [for m in public_type_pattern.finditer(text)]. *)
Definition story_candidate (cfg : Settings) (relPath text : str) (m : Match)
  : option (list Finding) :=
  let decl_idx := m_start m in
  let ln := line_of text decl_idx in
  let col := col_of text decl_idx in
  let decl_remainder := group_or_empty m 4 in
  found <- story_interesting text ln decl_remainder ;;
  if negb found then Some []
  else
    decl_line <- line_at text (ln - 1) ;;
    if has_marker decl_line then Some []
    else
      let lines := splitlines text in
      story_idx <- story_scan lines ln (ln - 1) ;;
      story_verdict cfg relPath lines ln col story_idx.

Definition StoryComments_loop (cfg : Settings) (relPath text : str)
  : option (list Finding) :=
  for_each (story_candidate cfg relPath text)
           (finditer public_type_pattern text).

(** The block under [if cfg.get('CheckBurstRef'):].  The story rule and its
    own toggle are inside that block. *)
Definition CheckBurstRef (cfg : Settings) (relPath text : str)
  : option (list Finding) :=
  if CheckBurstRef_on cfg then
    b <- BurstRef_loop relPath text ;;
    s <- (if CheckStoryComments_on cfg
          then StoryComments_loop cfg relPath text
          else Some []) ;;
    Some (b ++ s)
  else Some [].

(* ================================================================= *)
(** ** One file, and the walk over the tree *)

(** What one readable file appends to [results]. *)
Definition scan_text (cfg : Settings) (relPath text : str)
  : option (list Finding) :=
  let r1 := CheckNativeArray cfg relPath text in
  r2 <- CheckNulls cfg relPath text ;;
  let r3 := CheckSealedClasses cfg relPath text in
  r4 <- CheckEntityNull cfg relPath text ;;
  r5 <- CheckBurstRef cfg relPath text ;;
  Some (r1 ++ r2 ++ r3 ++ r4 ++ r5).

(** What [open(full).read()] does for a file: it returns the decoded text
    or raises an exception [e]. *)
Inductive read_result :=
| ReadOk (text : str)
| ReadFails (e : str).

(** One step of [os.walk(assets)]: a directory, as its path [rel] relative
    to [root] with ['/'] between the parts, and its files with what
    reading them gives. *)
Definition walk_step : Type := str * list (str * read_result).

(** The directory is skipped when a part of its path is an ignored token. *)
Definition dir_skipped (cfg : Settings) (rel : str) : bool :=
  existsb
    (fun tok =>
       match tok with
       | [] => false
       | _ :: _ => contains (py "/" ++ tok ++ py "/") (py "/" ++ rel ++ py "/")
       end)
    (IgnoreFolderTokens cfg).

(** [os.path.relpath(os.path.join(dirpath, fn), root)] with ['/'] between
    the parts. *)
Definition rel_path (rel fn : str) : str := rel ++ py "/" ++ fn.

(** A file that the loop reads: a [.cs] file that is not part of the
    scanner's own rules. *)
Definition is_scanned (rel fn : str) : bool :=
  endswith (lower fn) (py ".cs") &&
  negb (contains (py "Assets/Editor/CopilotRules") (rel_path rel fn)).

(** The body of [for fn in filenames]. *)
Definition scan_file (cfg : Settings) (rel : str) (f : str * read_result)
  : option (list Finding) :=
  let (fn, data) := f in
  if negb (endswith (lower fn) (py ".cs")) then Some []
  else
    let relPath := rel_path rel fn in
    if contains (py "Assets/Editor/CopilotRules") relPath then Some []
    else
      match data with
      | ReadFails e => Some [ReadError relPath e]
      | ReadOk text => scan_text cfg relPath text
      end.

(** The body of [for dirpath, dirnames, filenames in os.walk(assets)]. *)
Definition scan_dir (cfg : Settings) (d : walk_step) : option (list Finding) :=
  let (rel, files) := d in
  if dir_skipped cfg rel then Some []
  else for_each (scan_file cfg rel) files.

(** [results] when the walk is over. *)
Definition scan_tree (cfg : Settings) (walk : list walk_step)
  : option (list Finding) :=
  for_each (scan_dir cfg) walk.

End Scanner.

(* ================================================================= *)
(** ** Files used as examples *)

Definition path_Grid : str := py "Assets/Scripts/Grid.cs".

(** The default settings with the [CheckBurstRef] toggle off. *)
Definition cfg_no_burst : Settings :=
  {| CheckNativeArray_on := true;
     CheckNulls_on := true;
     CheckSealedClasses_on := true;
     CheckBurstRef_on := false;
     CheckEntityNull_on := true;
     CheckStoryComments_on := true;
     IgnoreFolderTokens := IgnoreFolderTokens cfg_default;
     ExemptEditorNullChecks := true |}.

Definition file_four_classes : str :=
  text_of ["using System;";
           "public class Foo { }";
           "public sealed class Foo2 { }";
           "public static class Foo3 { }";
           "internal abstract class Bar";
           "{";
           "}"].

Definition line_native_ignored : str :=
  py "NativeArray<int> cells; // copilot-ignore".

Definition line_class_ignored : str :=
  py "public class Foo // copilot-ignore".

Definition line_null_ignored : str := py "x = null; // copilot-ignore".

Definition file_component : str :=
  text_of ["public struct Health : IComponentData";
           "{";
           "    public int Value;";
           "}"].

Definition line_bracket_allowed : str :=
  py "[MethodImpl(256)] public void OnUpdate(ref SystemState state,".

Definition file_burst_bracket : str :=
  text_of ["[BurstCompile]";
           "[MethodImpl(256)] public void OnUpdate(ref SystemState state,";
           "    ref Extra extra)";
           "{";
           "}"].

Definition path_Editor : str := py "Assets/Editor/GridTool.cs".

(** The first match of a pattern in an example file. *)
Definition first_match (r : regex) (text : str) : Match :=
  hd {| m_start := 0; m_caps := [] |} (finditer ascii_tables r text).

Definition file_split_decl : str :=
  text_of ["public partial struct MoveSystem";
           "    // moves every unit";
           "    // one step per frame";
           "    : ISystem"].

Definition file_named_authoring : str :=
  text_of ["public class PlayerAuthoring";
           "{";
           "}";
           ""].

Definition line_lowercase_story : str :=
  py "// story: moves every unit one step per frame".

Definition file_lowercase_story : str :=
  text_of ["// story: moves every unit one step per frame";
           "public partial struct MoveSystem : ISystem";
           "{";
           "}"].

Definition line_story : str :=
  py "// Story: moves every unit one step per frame".

Definition file_story_above_attribute : str :=
  text_of ["// Story: moves every unit one step per frame";
           "";
           "[BurstCompile]";
           "public partial struct MoveSystem : ISystem";
           "{";
           "}"].

Definition line_short_story : str := py "// Story: short".

Definition file_short_story : str :=
  text_of ["// Story: short";
           "public class GridBaker : MonoBehaviour";
           "{";
           "}"].

Definition file_no_story : str :=
  text_of ["using UnityEngine;";
           "public class GridBaker : MonoBehaviour";
           "{";
           "}"].

Definition file_brace_ref : str :=
  text_of ["[BurstCompile]";
           "void Run()";
           "{ Update(ref value); }";
           "void Later(ref int y) { }"].

(** A file with "\r\n" at the end of its lines, in three pieces: the
    first line, the second line without its end, and what follows it. *)
Definition crlf_before : str := py "int a;" ++ [CR; LF].
Definition crlf_line : str := py "a = null;".
Definition crlf_after : str := [CR; LF] ++ py "int b;".

Definition path_Library : str := py "Assets/Library/Cache".

Definition line_ref_param : str := py "void Run(ref int x) { }".

Definition file_two_attributes : str :=
  text_of ["// [BurstCompile] goes on the job";
           "// and [BurstCompile] on the method";
           "void Run(ref int x) { }"].

(** A finding names a line of the file: its line number is an index, from
    one, into [text.splitlines()]. *)
Definition valid_line (text : str) (f : Finding) : Prop :=
  match f with
  | Located _ _ ln _ _ => 1 <= ln <= length (splitlines text)
  | ReadError _ _ => False
  end.

(** A rule ended without an exception and its findings name lines of the
    file. *)
Definition all_valid (text : str) (r : option (list Finding)) : Prop :=
  exists fs, r = Some fs /\ Forall (valid_line text) fs.

(* ================================================================= *)
(** ** Notions used to state what the rules do *)

Definition finding_line (f : Finding) : nat :=
  match f with
  | Located _ _ ln _ _ => ln
  | ReadError _ _ => 0
  end.

(** The line breaks of [s] are all "\n" or "\r\n". *)
Fixpoint plain_breaks (s : str) : bool :=
  match s with
  | [] => true
  | c :: s' =>
      if N.eqb c LF then plain_breaks s'
      else if N.eqb c CR then
        match s' with
        | c' :: s'' => N.eqb c' LF && plain_breaks s''
        | [] => false
        end
      else negb (islinebreak c) && plain_breaks s'
  end.

(** No character of [s] ends a line. *)
Definition no_break (s : str) : bool :=
  forallb (fun c => negb (islinebreak c)) s.

(** [s] is empty or begins with a character that ends a line. *)
Definition at_line_end (s : str) : bool :=
  match s with
  | [] => true
  | b :: _ => islinebreak b
  end.

(** The character before index [idx] of a text, if there is one. *)
Definition char_before (text : str) (idx : nat) : option N :=
  match idx with
  | O => None
  | S i => nth_error text i
  end.

(** The toggle, and for the null rule the exemption, under which a finding
    with a given tag can appear. *)
Definition rule_of_tag (cfg : Settings) (relPath : str) (tag : string) : bool :=
  if String.eqb tag "NativeArray" then CheckNativeArray_on cfg
  else if String.eqb tag "Null" then
    CheckNulls_on cfg && negb (ExemptEditorNullChecks cfg && in_editor relPath)
  else if String.eqb tag "Unsealed Class" then CheckSealedClasses_on cfg
  else if String.eqb tag "Entity.Null" then CheckEntityNull_on cfg
  else if String.eqb tag "Burst+ref" then CheckBurstRef_on cfg
  else if String.eqb tag "Story" then
    CheckBurstRef_on cfg && CheckStoryComments_on cfg
  else false.

(** A finding for the file [relPath] whose tag is that of a rule that the
    settings let run. *)
Definition from_enabled_rule (cfg : Settings) (relPath : str) (f : Finding)
  : Prop :=
  match f with
  | Located tag path _ _ _ => path = relPath /\ rule_of_tag cfg relPath tag = true
  | ReadError _ _ => False
  end.

(** A line that the inner loop of the Burst rule reports. *)
Definition ref_line (l : str) : bool :=
  contains (py "ref ") l && negb (has_marker l) &&
  negb (contains (py "ref SystemState") l).

(** A line that the scan above a declaration passes over: blank, or the
    beginning of an attribute. *)
Definition passed_over (l : str) : Prop :=
  lstrip l = [] \/ startswith (lstrip l) (py "[") = true.

(** The match [m] of the declaration pattern is a candidate of the story
    rule that no marker on its line suppresses. *)
Definition story_candidate_of (text : str) (m : Match) : Prop :=
  story_interesting text (line_of text (m_start m)) (group_or_empty m 4) =
    Some true /\
  exists dl, line_at text (line_of text (m_start m) - 1) = Some dl /\
             has_marker dl = false.

(** [f] is the finding for a missing story comment above [m]. *)
Definition story_missing_at (cfg : Settings) (relPath text : str) (m : Match)
    (f : Finding) : Prop :=
  f = Located "Story" relPath (line_of text (m_start m))
              (col_of text (m_start m)) msg_StoryMissing /\
  story_scan (splitlines text) (line_of text (m_start m))
             (line_of text (m_start m) - 1) = Some None /\
  ExemptEditorNullChecks cfg && in_editor relPath = false.

(** [f] is the finding for a story comment above [m] that is too short. *)
Definition story_short_at (U : unicode_db) (relPath text : str) (m : Match)
    (f : Finding) : Prop :=
  exists p l after,
    f = Located "Story" relPath (p + 1) 1 msg_StoryShort /\
    story_scan (splitlines text) (line_of text (m_start m))
               (line_of text (m_start m) - 1) = Some (Some p) /\
    nth_error (splitlines text) p = Some l /\
    story_after U l = Some after /\
    length after < 20.

Definition SL : N := 47.

(** A token with no ['/'] in it. *)
Definition no_slash (tok : str) : bool :=
  forallb (fun c => negb (N.eqb c SL)) tok.

(** [s.split('/')] *)
Fixpoint split_slash (s : str) : list str :=
  match s with
  | [] => [[]]
  | c :: s' =>
      if N.eqb c SL then [] :: split_slash s'
      else match split_slash s' with
           | seg :: rest => (c :: seg) :: rest
           | [] => [[c]]
           end
  end.

(* ================================================================= *)
(** ** Lines and line numbers *)

Lemma islinebreak_LF : islinebreak LF = true.
Proof. reflexivity. Qed.

Lemma not_linebreak_not_LF c : islinebreak c = false -> N.eqb c LF = false.
Proof.
  intros H. destruct (N.eqb_spec c LF) as [->|]; [|reflexivity].
  rewrite islinebreak_LF in H. discriminate.
Qed.

Lemma splitlines_from_nonempty s cur :
  s <> [] \/ cur <> [] -> 1 <= length (splitlines_from cur s).
Proof.
  revert cur. induction s as [|c s IH]; intros cur H; simpl.
  - destruct cur; simpl; [destruct H; congruence | lia].
  - destruct (islinebreak c); simpl; [lia|].
    apply IH. right. discriminate.
Qed.

(** Every ['\n'] before a position ends a line of its own, and what comes
    at the position belongs to one more line. *)
Lemma splitlines_count_bound n : forall a b cur,
  length a <= n -> b <> [] ->
  count_chr LF a + 1 <= length (splitlines_from cur (a ++ b)).
Proof.
  induction n as [|n IH]; intros a b cur Hn Hb.
  - destruct a; [|simpl in Hn; lia]. simpl.
    apply splitlines_from_nonempty. now left.
  - destruct a as [|c a'].
    + simpl. apply splitlines_from_nonempty. now left.
    + simpl in Hn. cbn [app splitlines_from count_chr].
      destruct (islinebreak c) eqn:Hlb.
      * cbn [length].
        destruct a' as [|c' a''].
        { cbn [app count_chr]. destruct b as [|b0 b']; [congruence|].
          destruct (N.eqb c CR && N.eqb b0 LF) eqn:Hcr.
          - apply andb_true_iff in Hcr. destruct Hcr as [Hc _].
            apply N.eqb_eq in Hc. subst c. simpl. lia.
          - assert (1 <= length (splitlines_from [] (b0 :: b')))
              by (apply splitlines_from_nonempty; left; discriminate).
            destruct (N.eqb c LF); lia. }
        { cbn [app]. destruct (N.eqb c CR && N.eqb c' LF) eqn:Hcr.
          - apply andb_true_iff in Hcr. destruct Hcr as [Hc Hc'].
            apply N.eqb_eq in Hc. subst c.
            cbn [count_chr]. rewrite Hc'.
            replace (N.eqb CR LF) with false by reflexivity.
            simpl in Hn.
            specialize (IH a'' b [] ltac:(lia) Hb). lia.
          - specialize (IH (c' :: a'') b [] ltac:(lia) Hb).
            cbn [app] in IH. destruct (N.eqb c LF); lia. }
      * rewrite (not_linebreak_not_LF _ Hlb).
        specialize (IH a' b (c :: cur) ltac:(lia) Hb). lia.
Qed.

Lemma line_of_valid text idx :
  idx < length text -> 1 <= line_of text idx <= length (splitlines text).
Proof.
  intros H. unfold line_of, splitlines. split; [lia|].
  rewrite <- (firstn_skipn idx text) at 2.
  apply (splitlines_count_bound (length (firstn idx text))); [lia|].
  intros E. apply (f_equal (@length N)) in E.
  rewrite length_skipn in E. simpl in E. lia.
Qed.

Lemma line_at_in_range text i :
  i < length (splitlines text) -> exists l, line_at text i = Some l.
Proof.
  intros H. unfold line_at.
  destruct (nth_error (splitlines text) i) eqn:E; [eauto|].
  apply nth_error_None in E. lia.
Qed.

Lemma nth_error_in_range {A} (l : list A) i :
  i < length l -> exists x, nth_error l i = Some x.
Proof.
  intros H. destruct (nth_error l i) eqn:E; [eauto|].
  apply nth_error_None in E. lia.
Qed.

(* ================================================================= *)
(** ** Loops *)

Lemma for_each_total {A} (P : Finding -> Prop)
    (body : A -> option (list Finding)) xs :
  (forall x, In x xs -> exists r, body x = Some r /\ Forall P r) ->
  exists rs, for_each body xs = Some rs /\ Forall P rs.
Proof.
  induction xs as [|x xs IH]; intros H; simpl.
  - eauto.
  - destruct (H x (or_introl eq_refl)) as (r & Hr & Pr).
    destruct IH as (rs & Hrs & Prs); [intros; apply H; now right|].
    rewrite Hr, Hrs. simpl. eexists; split; [reflexivity|].
    apply Forall_app; auto.
Qed.

Lemma for_each_In {A} (body : A -> option (list Finding)) xs rs x r f :
  for_each body xs = Some rs -> In x xs -> body x = Some r -> In f r ->
  In f rs.
Proof.
  revert rs. induction xs as [|y xs IH]; intros rs H Hx Hr Hf; [destruct Hx|].
  simpl in H. destruct (body y) as [ry|] eqn:Ey; [|discriminate].
  simpl in H. destruct (for_each body xs) as [rys|] eqn:Eys; [|discriminate].
  simpl in H. injection H as <-. apply in_or_app.
  destruct Hx as [->|Hx].
  - left. congruence.
  - right. eapply IH; eauto.
Qed.

Lemma for_each_app {A} (body : A -> option (list Finding)) xs ys :
  for_each body (xs ++ ys) =
  (r1 <- for_each body xs ;; r2 <- for_each body ys ;; Some (r1 ++ r2)).
Proof.
  induction xs as [|x xs IH]; simpl.
  - destruct (for_each body ys); reflexivity.
  - destruct (body x) as [r|]; [simpl|reflexivity].
    rewrite IH. destruct (for_each body xs) as [r1|]; [simpl|reflexivity].
    destruct (for_each body ys) as [r2|]; [simpl|reflexivity].
    now rewrite app_assoc.
Qed.

Section Properties.

Variable U : unicode_db.

(* ================================================================= *)
(** ** Where a match can start *)

Lemma finditer_from_start r : needs_text U r ->
  forall s prev idx skip m,
    In m (finditer_from U r prev s idx skip) ->
    idx <= m_start m < idx + length s.
Proof.
  intros Hr. induction s as [|c s IH]; intros prev idx skip m Hin.
  - destruct skip; simpl in Hin; [|destruct Hin].
    rewrite Hr in Hin. destruct Hin.
  - destruct skip as [|k]; cbn [finditer_from] in Hin.
    + destruct (match_here U r prev (c :: s)) as [[s_end g]|].
      * destruct Hin as [<-|Hin]; [simpl; lia|].
        apply IH in Hin. simpl. lia.
      * apply IH in Hin. simpl. lia.
    + apply IH in Hin. simpl. lia.
Qed.

Lemma finditer_start_lt r text m :
  needs_text U r -> In m (finditer U r text) -> m_start m < length text.
Proof.
  intros Hr Hin. apply (finditer_from_start r Hr) in Hin. lia.
Qed.

Lemma needs_text_NativeArray : needs_text U pat_NativeArray.
Proof.
  intros prev. unfold match_here, pat_NativeArray. cbn.
  destruct (at_word_boundary U prev []); reflexivity.
Qed.

Lemma needs_text_Null : needs_text U pat_Null.
Proof.
  intros prev. unfold match_here, pat_Null. cbn.
  destruct (at_word_boundary U prev []); reflexivity.
Qed.

Lemma needs_text_EntityNull : needs_text U pat_EntityNull.
Proof.
  intros prev. unfold match_here, pat_EntityNull. cbn.
  destruct (at_word_boundary U prev []); reflexivity.
Qed.

Lemma needs_text_Class : needs_text U pat_Class.
Proof.
  intros prev. unfold match_here, pat_Class. cbn.
  destruct (at_bol prev); reflexivity.
Qed.

Lemma needs_text_public_type : needs_text U public_type_pattern.
Proof.
  intros prev. unfold match_here, public_type_pattern. cbn.
  destruct (at_bol prev); reflexivity.
Qed.

(* ================================================================= *)
(** ** Every rule ends without an exception and names lines of the file *)

Lemma all_valid_nil text : all_valid text (Some []).
Proof. exists []. split; [reflexivity|constructor]. Qed.

Lemma all_valid_one text tag path ln col msg :
  1 <= ln <= length (splitlines text) ->
  all_valid text (Some [Located tag path ln col msg]).
Proof.
  intros H. eexists. split; [reflexivity|].
  constructor; [exact H|constructor].
Qed.

Lemma for_each_valid {A} text (body : A -> option (list Finding)) xs :
  (forall x, In x xs -> all_valid text (body x)) ->
  all_valid text (for_each body xs).
Proof. apply for_each_total. Qed.

Lemma CheckNativeArray_valid cfg relPath text :
  Forall (valid_line text) (CheckNativeArray U cfg relPath text).
Proof.
  unfold CheckNativeArray.
  destruct (CheckNativeArray_on cfg && search U pat_NativeArray text);
    [|constructor].
  apply Forall_forall. intros f Hin.
  apply in_map_iff in Hin. destruct Hin as (m & <- & Hm).
  apply line_of_valid.
  exact (finditer_start_lt _ _ _ needs_text_NativeArray Hm).
Qed.

Lemma Null_hit_valid relPath text m :
  m_start m < length text -> all_valid text (Null_hit relPath text m).
Proof.
  intros H. unfold Null_hit.
  pose proof (line_of_valid text _ H) as Hln.
  destruct (line_at_in_range text (line_of text (m_start m) - 1)) as [l ->];
    [lia|].
  simpl. destruct (has_marker l);
    [apply all_valid_nil | now apply all_valid_one].
Qed.

(** A match of the null rule or of the Entity.Null rule on a line that
    holds a suppression marker is not reported. *)
Lemma suppressed_hit_silent relPath text m l :
  line_at text (line_of text (m_start m) - 1) = Some l ->
  has_marker l = true ->
  Null_hit relPath text m = Some [] /\
  EntityNull_hit relPath text m = Some [].
Proof.
  intros Hl Hm. unfold Null_hit, EntityNull_hit.
  rewrite Hl. cbn [bind]. rewrite Hm. split; reflexivity.
Qed.

Lemma CheckNulls_valid cfg relPath text :
  all_valid text (CheckNulls U cfg relPath text).
Proof.
  unfold CheckNulls.
  destruct (CheckNulls_on cfg); [|apply all_valid_nil].
  destruct (negb (ExemptEditorNullChecks cfg && in_editor relPath));
    [|apply all_valid_nil].
  apply for_each_valid. intros m Hm. apply Null_hit_valid.
  exact (finditer_start_lt _ _ _ needs_text_Null Hm).
Qed.

Lemma CheckSealedClasses_valid cfg relPath text :
  Forall (valid_line text) (CheckSealedClasses U cfg relPath text).
Proof.
  unfold CheckSealedClasses.
  destruct (CheckSealedClasses_on cfg); [|constructor].
  apply Forall_forall. intros f Hin.
  apply in_flat_map in Hin. destruct Hin as (m & Hm & Hf).
  unfold Class_hit in Hf.
  destruct (negb (truthy (group m 3)) && negb (truthy (group m 4)));
    [|destruct Hf].
  destruct Hf as [<-|[]].
  apply line_of_valid.
  exact (finditer_start_lt _ _ _ needs_text_Class Hm).
Qed.

Lemma EntityNull_hit_valid relPath text m :
  m_start m < length text -> all_valid text (EntityNull_hit relPath text m).
Proof.
  intros H. unfold EntityNull_hit.
  pose proof (line_of_valid text _ H) as Hln.
  destruct (line_at_in_range text (line_of text (m_start m) - 1)) as [l ->];
    [lia|].
  simpl. destruct (has_marker l);
    [apply all_valid_nil | now apply all_valid_one].
Qed.

Lemma CheckEntityNull_valid cfg relPath text :
  all_valid text (CheckEntityNull U cfg relPath text).
Proof.
  unfold CheckEntityNull.
  destruct (CheckEntityNull_on cfg && search U pat_EntityNull text);
    [|apply all_valid_nil].
  apply for_each_valid. intros m Hm. apply EntityNull_hit_valid.
  exact (finditer_start_lt _ _ _ needs_text_EntityNull Hm).
Qed.

Lemma burst_window_valid relPath text js :
  (forall j, In j js -> j < length (splitlines text)) ->
  all_valid text (burst_window relPath (splitlines text) js).
Proof.
  induction js as [|j js IH]; intros H; [apply all_valid_nil|].
  assert (IH' : all_valid text (burst_window relPath (splitlines text) js))
    by (apply IH; intros; apply H; now right).
  cbn [burst_window].
  destruct (nth_error_in_range (splitlines text) j) as [lj ->];
    [apply H; now left|].
  cbn [bind].
  destruct (contains (py "ref ") lj).
  - destruct (has_marker lj); [exact IH'|].
    destruct (contains (py "ref SystemState") lj); [exact IH'|].
    assert (Hj : 1 <= j + 1 <= length (splitlines text))
      by (specialize (H j (or_introl eq_refl)); lia).
    destruct (closes_window lj).
    + now apply all_valid_one.
    + destruct IH' as (fs & -> & Hfs). eexists. split; [reflexivity|].
      constructor; [exact Hj|exact Hfs].
  - destruct (closes_window lj); [apply all_valid_nil|exact IH'].
Qed.

Lemma in_range a b j : In j (range a b) <-> a <= j < b.
Proof. unfold range. rewrite in_seq. lia. Qed.

Lemma burst_trigger_valid relPath text il :
  all_valid text (burst_trigger U relPath (splitlines text) il).
Proof.
  destruct il as [i l]. unfold burst_trigger.
  destruct (search U pat_Burst l); [|apply all_valid_nil].
  apply burst_window_valid. intros j Hj. apply in_range in Hj. lia.
Qed.

Lemma BurstRef_loop_valid relPath text :
  all_valid text (BurstRef_loop U relPath text).
Proof.
  unfold BurstRef_loop. apply for_each_valid.
  intros il _. apply burst_trigger_valid.
Qed.

Lemma story_lookahead_total lines ks :
  (forall k, In k ks -> 1 <= k <= length lines) ->
  exists b, story_lookahead lines ks = Some b.
Proof.
  induction ks as [|k ks IH]; intros H; cbn [story_lookahead]; [eauto|].
  destruct (nth_error_in_range lines (k - 1)) as [l ->].
  { specialize (H k (or_introl eq_refl)). lia. }
  cbn [bind]. destruct (has_token l); [eauto|].
  apply IH. intros; apply H; now right.
Qed.

Lemma story_interesting_total text ln rem :
  1 <= ln -> exists b, story_interesting text ln rem = Some b.
Proof.
  intros Hln. unfold story_interesting.
  destruct (has_token rem); [eauto|].
  apply story_lookahead_total. intros k Hk. apply in_range in Hk. lia.
Qed.

Lemma story_scan_total lines ln n :
  n <= length lines ->
  exists r, story_scan lines ln n = Some r /\
            forall p, r = Some p -> p < n.
Proof.
  induction n as [|prev IH]; intros Hn; cbn [story_scan].
  - eexists. split; [reflexivity|]. discriminate.
  - assert (IH' : exists r, story_scan lines ln prev = Some r /\
                            forall p, r = Some p -> p < S prev).
    { destruct IH as (r & Hr & Hp); [lia|]. exists r. split; [exact Hr|].
      intros p E. specialize (Hp p E). lia. }
    destruct (ln - prev <=? 6).
    + destruct (nth_error_in_range lines prev) as [l ->]; [lia|].
      cbn [bind]. destruct (lstrip l) as [|c s] eqn:Es; [exact IH'|].
      destruct (startswith (c :: s) (py "[")); [exact IH'|].
      destruct (is_story_line (c :: s)).
      * eexists. split; [reflexivity|]. intros p E. injection E as <-. lia.
      * eexists. split; [reflexivity|]. discriminate.
    + eexists. split; [reflexivity|]. discriminate.
Qed.

Lemma story_verdict_valid cfg relPath text ln col sidx :
  1 <= ln <= length (splitlines text) ->
  (forall p, sidx = Some p -> p < length (splitlines text)) ->
  all_valid text (story_verdict U cfg relPath (splitlines text) ln col sidx).
Proof.
  intros Hln Hs. unfold story_verdict. destruct sidx as [i|].
  - specialize (Hs i eq_refl).
    destruct (nth_error_in_range (splitlines text) i) as [l ->]; [lia|].
    cbn [bind]. destruct (story_after U l) as [after|]; [|apply all_valid_nil].
    destruct (length after <? 20); [|apply all_valid_nil].
    apply all_valid_one. lia.
  - destruct (ExemptEditorNullChecks cfg && in_editor relPath);
      [apply all_valid_nil | now apply all_valid_one].
Qed.

Lemma story_candidate_valid cfg relPath text m :
  m_start m < length text ->
  all_valid text (story_candidate U cfg relPath text m).
Proof.
  intros H. unfold story_candidate.
  pose proof (line_of_valid text _ H) as Hln.
  set (ln := line_of text (m_start m)) in *.
  destruct (story_interesting_total text ln (group_or_empty m 4)) as [b ->];
    [lia|].
  cbn [bind]. destruct b; cbn [negb]; [|apply all_valid_nil].
  destruct (line_at_in_range text (ln - 1)) as [l ->]; [lia|].
  cbn [bind]. destruct (has_marker l); [apply all_valid_nil|].
  destruct (story_scan_total (splitlines text) ln (ln - 1)) as (r & -> & Hr);
    [lia|].
  cbn [bind]. apply story_verdict_valid; [exact Hln|].
  intros p E. specialize (Hr p E). lia.
Qed.

Lemma StoryComments_loop_valid cfg relPath text :
  all_valid text (StoryComments_loop U cfg relPath text).
Proof.
  unfold StoryComments_loop. apply for_each_valid.
  intros m Hm. apply story_candidate_valid.
  exact (finditer_start_lt _ _ _ needs_text_public_type Hm).
Qed.

Lemma CheckBurstRef_valid cfg relPath text :
  all_valid text (CheckBurstRef U cfg relPath text).
Proof.
  unfold CheckBurstRef.
  destruct (CheckBurstRef_on cfg); [|apply all_valid_nil].
  destruct (BurstRef_loop_valid relPath text) as (b & -> & Hb). cbn [bind].
  assert (Hs : all_valid text
                 (if CheckStoryComments_on cfg
                  then StoryComments_loop U cfg relPath text else Some [])).
  { destruct (CheckStoryComments_on cfg);
      [apply StoryComments_loop_valid|apply all_valid_nil]. }
  destruct Hs as (st & -> & Hst). cbn [bind].
  eexists. split; [reflexivity|]. apply Forall_app. auto.
Qed.

Lemma scan_text_valid cfg relPath text :
  all_valid text (scan_text U cfg relPath text).
Proof.
  unfold scan_text.
  destruct (CheckNulls_valid cfg relPath text) as (r2 & -> & H2).
  destruct (CheckEntityNull_valid cfg relPath text) as (r4 & -> & H4).
  destruct (CheckBurstRef_valid cfg relPath text) as (r5 & -> & H5).
  cbn [bind]. eexists. split; [reflexivity|].
  repeat (apply Forall_app; split); auto.
  - apply CheckNativeArray_valid.
  - apply CheckSealedClasses_valid.
Qed.

(* ================================================================= *)
(** ** Line numbers of findings *)

(** C9.  Whatever the settings and the text of a file, its scan ends without
    an exception, and the line number of each of its findings, which a
    pattern rule computes as one more than the number of newline characters
    before the start of the match, is between 1 and the number of lines of
    the text. *)
Theorem finding_lines_in_range cfg relPath text :
  exists fs,
    scan_text U cfg relPath text = Some fs /\
    Forall (fun f =>
              match f with
              | Located _ _ ln _ _ => 1 <= ln <= length (splitlines text)
              | ReadError _ _ => False
              end) fs.
Proof. exact (scan_text_valid cfg relPath text). Qed.

(* ================================================================= *)
(** ** Files that cannot be read *)

Lemma scan_file_total cfg rel f : exists r, scan_file U cfg rel f = Some r.
Proof.
  destruct f as [fn data]. unfold scan_file.
  destruct (negb (endswith (lower U fn) (py ".cs"))); [eauto|].
  destruct (contains (py "Assets/Editor/CopilotRules") (rel_path rel fn));
    [eauto|].
  destruct data as [text|e]; [|eauto].
  destruct (scan_text_valid cfg (rel_path rel fn) text) as (fs & -> & _).
  eauto.
Qed.

Lemma for_each_defined {A} (body : A -> option (list Finding)) xs :
  (forall x, exists r, body x = Some r) ->
  exists rs, for_each body xs = Some rs.
Proof.
  intros H.
  destruct (for_each_total (fun _ => True) body xs) as (rs & Hrs & _);
    [|eauto].
  intros x _. destruct (H x) as [r Hr]. exists r. split; [exact Hr|].
  apply Forall_forall. auto.
Qed.

Lemma scan_files_total cfg rel files :
  exists r, for_each (scan_file U cfg rel) files = Some r.
Proof. apply for_each_defined. apply scan_file_total. Qed.

Lemma scan_dir_total cfg d : exists r, scan_dir U cfg d = Some r.
Proof.
  destruct d as [rel files]. unfold scan_dir.
  destruct (dir_skipped cfg rel); [eauto|]. apply scan_files_total.
Qed.

Lemma scan_tree_total cfg walk : exists r, scan_tree U cfg walk = Some r.
Proof. apply for_each_defined. apply scan_dir_total. Qed.

Lemma scan_unreadable cfg rel fn e :
  is_scanned U rel fn = true ->
  scan_file U cfg rel (fn, ReadFails e) = Some [ReadError (rel_path rel fn) e].
Proof.
  unfold is_scanned, scan_file. intros H.
  apply andb_true_iff in H. destruct H as [H1 H2].
  rewrite H1. cbn [negb]. apply negb_true_iff in H2. rewrite H2. reflexivity.
Qed.

(** C8.  A file that the walk wants to read (a [.cs] file, outside the
    ignored directories and the scanner's own rules) and that cannot be read
    adds exactly one entry to the results, the one tagged Error for that
    file; the files before it and after it, in its directory and in the
    rest of the walk, are scanned as they are without it. *)
Theorem unreadable_file_reported cfg w1 w2 rel fs1 fs2 fn e :
  dir_skipped cfg rel = false ->
  is_scanned U rel fn = true ->
  scan_file U cfg rel (fn, ReadFails e) = Some [ReadError (rel_path rel fn) e]
  /\
  exists before after,
    scan_tree U cfg (w1 ++ [(rel, fs1)]) = Some before /\
    scan_tree U cfg ((rel, fs2) :: w2) = Some after /\
    scan_tree U cfg (w1 ++ (rel, fs1 ++ (fn, ReadFails e) :: fs2) :: w2) =
      Some (before ++ ReadError (rel_path rel fn) e :: after).
Proof.
  intros Hdir Hscan.
  pose proof (scan_unreadable cfg rel fn e Hscan) as Hfile.
  split; [exact Hfile|].
  destruct (scan_tree_total cfg w1) as [r1 H1].
  destruct (scan_tree_total cfg w2) as [r2 H2].
  destruct (scan_files_total cfg rel fs1) as [a1 Ha1].
  destruct (scan_files_total cfg rel fs2) as [a2 Ha2].
  unfold scan_tree in *.
  exists (r1 ++ a1), (a2 ++ r2).
  rewrite !for_each_app. cbn [for_each scan_dir]. rewrite Hdir.
  rewrite for_each_app. cbn [for_each]. rewrite Hfile.
  rewrite H1, H2, Ha1, Ha2. cbn [bind].
  rewrite !app_nil_r. repeat split.
  f_equal. rewrite <- !app_assoc. reflexivity.
Qed.

(* ================================================================= *)
(** ** The class rule on four declarations *)

(** C7.  With the class rule on: a file that is the declaration
    "public class Foo" has exactly one finding; the files
    "public sealed class Foo" and "public static class Foo" have none;
    the file "internal abstract class Bar" has exactly one, whose message
    names Bar.  In a file that holds the four kinds of declaration the
    findings are those of the two declarations that are neither sealed nor
    static. *)
Theorem class_rule_examples cfg relPath :
  CheckSealedClasses_on cfg = true ->
  CheckSealedClasses U cfg relPath (py "public class Foo") =
    [Located "Unsealed Class" relPath 1 1 (py "class 'Foo' is not sealed.")]
  /\ CheckSealedClasses U cfg relPath (py "public sealed class Foo") = []
  /\ CheckSealedClasses U cfg relPath (py "public static class Foo") = []
  /\ CheckSealedClasses U cfg relPath (py "internal abstract class Bar") =
    [Located "Unsealed Class" relPath 1 1 (py "class 'Bar' is not sealed.")]
  /\ CheckSealedClasses U cfg relPath file_four_classes =
    [Located "Unsealed Class" relPath 2 1 (py "class 'Foo' is not sealed.");
     Located "Unsealed Class" relPath 5 1 (py "class 'Bar' is not sealed.")].
Proof.
  intros Hon. unfold CheckSealedClasses. rewrite Hon.
  repeat split; vm_compute; reflexivity.
Qed.

(* ================================================================= *)
(** ** Suppression markers *)

(** C1.  The array rule and the class rule report a match on a line that
    holds the suppression marker; the null rule, on such a line, reports
    nothing. *)
Theorem marker_not_read_by_array_and_class_rules relPath :
  has_marker line_native_ignored = true
  /\ CheckNativeArray U cfg_default relPath line_native_ignored =
     [Located "NativeArray" relPath 1 1 msg_NativeArray]
  /\ has_marker line_class_ignored = true
  /\ CheckSealedClasses U cfg_default relPath line_class_ignored =
     [Located "Unsealed Class" relPath 1 1 (py "class 'Foo' is not sealed.")]
  /\ has_marker line_null_ignored = true
  /\ CheckNulls U cfg_default path_Grid line_null_ignored = Some [].
Proof. repeat split; vm_compute; reflexivity. Qed.

(* ================================================================= *)
(** ** The toggles *)

(** C2.  With [CheckBurstRef] off and [CheckStoryComments] on, the scan of
    a file with an undocumented component reports the class rule's finding
    only (none here: the type is a struct); the story rule, run on the same
    file, reports the missing comment, and so does the scan when
    [CheckBurstRef] is on. *)
Theorem story_rule_gated_by_burst_toggle :
  CheckStoryComments_on cfg_no_burst = true
  /\ scan_text U cfg_no_burst path_Grid file_component = Some []
  /\ StoryComments_loop U cfg_no_burst path_Grid file_component =
     Some [Located "Story" path_Grid 1 1 msg_StoryMissing]
  /\ scan_text U cfg_default path_Grid file_component =
     Some [Located "Story" path_Grid 1 1 msg_StoryMissing].
Proof. repeat split; vm_compute; reflexivity. Qed.

(* ================================================================= *)
(** ** The window after a BurstCompile attribute *)

(** The findings of a window are on lines that the loop went through. *)
Lemma burst_window_lines relPath lines js : forall fs,
  burst_window relPath lines js = Some fs ->
  Forall (fun f => exists j, In j js /\ f = burst_finding relPath j) fs.
Proof.
  induction js as [|j js IH]; intros fs H; cbn [burst_window] in H.
  - injection H as <-. constructor.
  - assert (IH' : forall fs0, burst_window relPath lines js = Some fs0 ->
              Forall (fun f => exists j0, In j0 (j :: js) /\
                                          f = burst_finding relPath j0) fs0).
    { intros fs0 H0. apply IH in H0. revert H0. apply Forall_impl.
      intros f (j0 & Hj0 & ->). exists j0. split; [now right|reflexivity]. }
    destruct (nth_error lines j) as [lj|]; [|discriminate]. cbn [bind] in H.
    destruct (contains (py "ref ") lj).
    + destruct (has_marker lj); [now apply IH'|].
      destruct (contains (py "ref SystemState") lj); [now apply IH'|].
      assert (Hj : exists j0, In j0 (j :: js) /\
                     burst_finding relPath j = burst_finding relPath j0)
        by (exists j; split; [now left|reflexivity]).
      destruct (closes_window lj).
      * injection H as <-. constructor; [exact Hj|constructor].
      * destruct (burst_window relPath lines js) as [rest|]; [|discriminate].
        injection H as <-. constructor; [exact Hj|]. now apply IH'.
    + destruct (closes_window lj); [injection H as <-; constructor|].
      now apply IH'.
Qed.

(** A trigger on line [i + 1] has its findings among the 19 lines after
    it. *)
Lemma burst_trigger_window relPath lines i l fs :
  burst_trigger U relPath lines (i, l) = Some fs ->
  Forall (fun f => exists j, i < j < i + 20 /\ j < length lines /\
                             f = burst_finding relPath j) fs.
Proof.
  unfold burst_trigger. destruct (search U pat_Burst l).
  - intros H. apply burst_window_lines in H. revert H. apply Forall_impl.
    intros f (j & Hj & ->). apply in_range in Hj. exists j.
    repeat split; lia.
  - intros H. injection H as <-. constructor.
Qed.

Lemma range_split a j b :
  a <= j < b -> range a b = range a j ++ j :: range (j + 1) b.
Proof.
  intros H. unfold range.
  replace (b - a) with ((j - a) + S (b - (j + 1))) by lia.
  rewrite seq_app. cbn [seq]. repeat f_equal; lia.
Qed.

(** Lines that do not end the loop: the window goes on after them. *)
Lemma burst_window_goes_on relPath lines pre rest r :
  (forall k, In k pre -> exists lk, nth_error lines k = Some lk /\
                                    closes_window lk = false) ->
  burst_window relPath lines rest = Some r ->
  exists r0, burst_window relPath lines (pre ++ rest) = Some (r0 ++ r).
Proof.
  intros Hpre Hrest. induction pre as [|k pre IH]; [exists []; exact Hrest|].
  destruct IH as (r0 & IH); [intros; apply Hpre; now right|].
  destruct (Hpre k (or_introl eq_refl)) as (lk & Hlk & Hcl).
  cbn [app burst_window]. rewrite Hlk. cbn [bind]. rewrite Hcl, IH.
  cbn [bind].
  destruct (contains (py "ref ") lk); [|exists r0; reflexivity].
  destruct (has_marker lk); [exists r0; reflexivity|].
  destruct (contains (py "ref SystemState") lk); [exists r0; reflexivity|].
  exists (burst_finding relPath k :: r0). reflexivity.
Qed.

Lemma nth_error_combine_seq (l : str) : forall (ls : list str) k a,
  nth_error ls k = Some l ->
  In (k + a, l) (combine (seq a (length ls)) ls).
Proof.
  induction ls as [|x ls IH]; intros k a H; [destruct k; discriminate|].
  destruct k as [|k]; simpl in H.
  - injection H as ->. left. reflexivity.
  - right. replace (S k + a) with (k + S a) by lia. now apply IH.
Qed.

Lemma nth_error_enumerate lines i l :
  nth_error lines i = Some l -> In (i, l) (enumerate lines).
Proof.
  intros H. apply (nth_error_combine_seq l lines i 0) in H.
  rewrite Nat.add_0_r in H. exact H.
Qed.

(** C3.  The second line of the file begins with an opening bracket, so it
    is a line at which the window should end; it holds the allowed form
    "ref SystemState", the loop goes to the next line without making the
    test that ends it, and the third line is reported. *)
Theorem bracket_line_with_allowed_ref_keeps_window_open relPath :
  nth_error (splitlines file_burst_bracket) 1 = Some line_bracket_allowed
  /\ closes_window line_bracket_allowed = true
  /\ BurstRef_loop U relPath file_burst_bracket =
     Some [Located "Burst+ref" relPath 3 1 msg_BurstRef].
Proof. repeat split; vm_compute; reflexivity. Qed.

(** C10.  Let line [i] hold the attribute and let line [j], one of the 19
    lines after it, be the first after line [i] whose left-stripped text
    begins with an opening brace or bracket.  If line [j] holds "ref ",
    holds no suppression marker and does not hold "ref SystemState", then a
    finding for line [j] is among the results, and the window ends with it:
    from line [j] on, the loop yields that finding and nothing else. *)
Theorem closing_line_is_checked relPath text i j li lj :
  nth_error (splitlines text) i = Some li ->
  search U pat_Burst li = true ->
  i < j < i + 20 ->
  nth_error (splitlines text) j = Some lj ->
  (forall k lk, i < k < j -> nth_error (splitlines text) k = Some lk ->
                closes_window lk = false) ->
  closes_window lj = true ->
  contains (py "ref ") lj = true ->
  has_marker lj = false ->
  contains (py "ref SystemState") lj = false ->
  burst_window relPath (splitlines text)
    (j :: range (j + 1) (Nat.min (length (splitlines text)) (i + 20))) =
    Some [Located "Burst+ref" relPath (j + 1) 1 msg_BurstRef]
  /\
  exists fs,
    BurstRef_loop U relPath text = Some fs /\
    In (Located "Burst+ref" relPath (j + 1) 1 msg_BurstRef) fs.
Proof.
  intros Hi Hburst Hij Hj Hopen Hclose Href Hmark Hallowed.
  set (lines := splitlines text) in *.
  set (e := Nat.min (length lines) (i + 20)).
  assert (Hstop : burst_window relPath lines (j :: range (j + 1) e) =
                  Some [burst_finding relPath j]).
  { cbn [burst_window]. rewrite Hj. cbn [bind].
    rewrite Href, Hmark, Hallowed, Hclose. reflexivity. }
  split; [exact Hstop|].
  assert (Hjlen : j < length lines)
    by (apply nth_error_Some; rewrite Hj; discriminate).
  assert (Htrig : exists r0, burst_trigger U relPath lines (i, li) =
                             Some (r0 ++ [burst_finding relPath j])).
  { unfold burst_trigger. rewrite Hburst. fold e.
    rewrite (range_split (i + 1) j e) by (unfold e; lia).
    apply burst_window_goes_on; [|exact Hstop].
    intros k Hk. apply in_range in Hk.
    destruct (nth_error_in_range lines k) as [lk Hlk]; [lia|].
    exists lk. split; [exact Hlk|]. apply (Hopen k lk); [lia|exact Hlk]. }
  destruct Htrig as (r0 & Htrig).
  destruct (BurstRef_loop_valid relPath text) as (fs & Hfs & _).
  exists fs. split; [exact Hfs|].
  unfold BurstRef_loop in Hfs. fold lines in Hfs.
  eapply for_each_In; [exact Hfs| |exact Htrig|].
  - now apply nth_error_enumerate.
  - apply in_or_app. right. now left.
Qed.

(* ================================================================= *)
(** ** The story rule: which declarations are candidates *)

Lemma story_lookahead_spec lines ks :
  (forall k, In k ks -> 1 <= k <= length lines) ->
  exists b,
    story_lookahead lines ks = Some b /\
    (b = true <->
     exists k l, In k ks /\ nth_error lines (k - 1) = Some l /\
                 has_token l = true).
Proof.
  induction ks as [|k ks IH]; intros H; cbn [story_lookahead].
  - exists false. split; [reflexivity|]. split; [discriminate|].
    intros (k & l & [] & _).
  - destruct (nth_error_in_range lines (k - 1)) as [l Hl].
    { specialize (H k (or_introl eq_refl)). lia. }
    rewrite Hl. cbn [bind]. destruct (has_token l) eqn:Ht.
    + exists true. split; [reflexivity|]. split; [|reflexivity].
      intros _. exists k, l. split; [now left|]. split; assumption.
    + destruct IH as (b & Hb & Hspec); [intros; apply H; now right|].
      exists b. split; [exact Hb|]. rewrite Hspec. split.
      * intros (k' & l' & Hin & Hn & Ht'). exists k', l'.
        split; [now right|]. split; assumption.
      * intros (k' & l' & [<-|Hin] & Hn & Ht').
        { rewrite Hl in Hn. injection Hn as <-. congruence. }
        exists k', l'. split; [exact Hin|]. split; assumption.
Qed.

(** C6, as the code has it.  For every match of the declaration pattern,
    the declaration is a candidate of the story rule exactly when the rest
    of its line after the name holds one of the marker tokens, or one of
    three lines does: the line on which the match starts and the two lines
    after it (line numbers [ln], [ln + 1] and [ln + 2]). *)
Theorem interesting_candidate_lines text m :
  In m (finditer U public_type_pattern text) ->
  exists b,
    story_interesting text (line_of text (m_start m)) (group_or_empty m 4) =
      Some b /\
    (b = true <->
     has_token (group_or_empty m 4) = true \/
     exists k l,
       line_of text (m_start m) <= k <= line_of text (m_start m) + 2 /\
       nth_error (splitlines text) (k - 1) = Some l /\
       has_token l = true).
Proof.
  intros Hm.
  pose proof (finditer_start_lt _ _ _ needs_text_public_type Hm) as Hlt.
  pose proof (line_of_valid text _ Hlt) as Hln.
  set (ln := line_of text (m_start m)) in *.
  unfold story_interesting.
  destruct (has_token (group_or_empty m 4)) eqn:Hrem.
  - exists true. split; [reflexivity|]. split; auto.
  - set (lines := splitlines text) in *.
    destruct (story_lookahead_spec lines
                (range ln (Nat.min (length lines) (ln - 1 + 3) + 1)))
      as (b & Hb & Hspec).
    { intros k Hk. apply in_range in Hk. lia. }
    exists b. split; [exact Hb|]. rewrite Hspec. split.
    + intros (k & l & Hk & Hl & Ht). right. exists k, l.
      apply in_range in Hk. repeat split; try assumption; lia.
    + intros [Hd|(k & l & Hk & Hl & Ht)]; [discriminate|].
      exists k, l. split; [|split; assumption].
      assert (k - 1 < length lines)
        by (apply nth_error_Some; rewrite Hl; discriminate).
      apply in_range. lia.
Qed.

(* ================================================================= *)
(** ** The story rule: the scan above the declaration *)

(** Blank lines and lines that begin an attribute are passed over. *)
Lemma story_scan_passes lines ln p : forall n,
  p < n -> ln - p <= 6 ->
  (forall k lk, p < k < n -> nth_error lines k = Some lk ->
                lstrip lk = [] \/ startswith (lstrip lk) (py "[") = true) ->
  n <= length lines ->
  story_scan lines ln n = story_scan lines ln (S p).
Proof.
  induction n as [|n IH]; intros Hp Hbud Hskip Hlen; [lia|].
  destruct (Nat.eq_dec n p) as [->|Hne]; [reflexivity|].
  rewrite <- IH; try lia.
  - cbn [story_scan].
    replace (ln - n <=? 6) with true by (symmetry; apply Nat.leb_le; lia).
    destruct (nth_error_in_range lines n) as [lk Hlk]; [lia|].
    rewrite Hlk. cbn [bind].
    destruct (Hskip n lk ltac:(lia) Hlk) as [E|E].
    + rewrite E. reflexivity.
    + destruct (lstrip lk); [reflexivity|]. rewrite E. reflexivity.
  - intros k lk Hk. apply Hskip. lia.
Qed.

Lemma story_scan_stops lines ln p l :
  ln - p <= 6 -> nth_error lines p = Some l ->
  lstrip l <> [] -> startswith (lstrip l) (py "[") = false ->
  story_scan lines ln (S p) =
  Some (if is_story_line (lstrip l) then Some p else None).
Proof.
  intros Hbud Hl Hne Hattr. cbn [story_scan].
  replace (ln - p <=? 6) with true by (symmetry; apply Nat.leb_le; lia).
  rewrite Hl. cbn [bind]. destruct (lstrip l) as [|c s]; [congruence|].
  rewrite Hattr. destruct (is_story_line (c :: s)); reflexivity.
Qed.

(** When the scan found a comment, the candidate has no finding or the one
    for a comment that is too short. *)
Lemma story_candidate_found cfg relPath text m p :
  m_start m < length text ->
  story_scan (splitlines text) (line_of text (m_start m))
             (line_of text (m_start m) - 1) = Some (Some p) ->
  story_candidate U cfg relPath text m = Some [] \/
  story_candidate U cfg relPath text m =
    Some [Located "Story" relPath (p + 1) 1 msg_StoryShort].
Proof.
  intros Hlt Hscan. unfold story_candidate.
  pose proof (line_of_valid text _ Hlt) as Hln.
  set (ln := line_of text (m_start m)) in *.
  destruct (story_interesting_total text ln (group_or_empty m 4)) as [b ->];
    [lia|].
  cbn [bind]. destruct b; cbn [negb]; [|now left].
  destruct (line_at_in_range text (ln - 1)) as [dl ->]; [lia|].
  cbn [bind]. destruct (has_marker dl); [now left|].
  rewrite Hscan. cbn [bind story_verdict].
  destruct (story_scan_total (splitlines text) ln (ln - 1)) as (r & Hr & Hp);
    [lia|].
  rewrite Hscan in Hr. injection Hr as <-. specialize (Hp p eq_refl).
  destruct (nth_error_in_range (splitlines text) p) as [l ->]; [lia|].
  cbn [bind]. destruct (story_after U l) as [after|]; [|now left].
  destruct (length after <? 20); [now right|now left].
Qed.

(** C5, as the code has it.  Take a match of the declaration pattern that
    starts on line [ln], and let line [p + 1] be the first line above it
    that is neither blank nor the beginning of an attribute, one of the five
    lines above line [ln].  The scan accepts that line exactly when its
    left-stripped text starts with "//" and holds the text "Story:", in
    this very spelling; when it is accepted, the candidate gets no finding
    or the one for a comment that is too short, never the one for a missing
    comment. *)
Theorem story_line_accepted_case_sensitive cfg relPath text m p l :
  In m (finditer U public_type_pattern text) ->
  p + 2 <= line_of text (m_start m) ->
  line_of text (m_start m) - p <= 6 ->
  nth_error (splitlines text) p = Some l ->
  lstrip l <> [] ->
  startswith (lstrip l) (py "[") = false ->
  (forall k lk, p < k -> k + 2 <= line_of text (m_start m) ->
                nth_error (splitlines text) k = Some lk ->
                lstrip lk = [] \/ startswith (lstrip lk) (py "[") = true) ->
  story_scan (splitlines text) (line_of text (m_start m))
             (line_of text (m_start m) - 1) =
    Some (if startswith (lstrip l) (py "//") &&
             contains (py "Story:") (lstrip l)
          then Some p else None)
  /\
  (startswith (lstrip l) (py "//") && contains (py "Story:") (lstrip l) = true ->
   story_candidate U cfg relPath text m = Some [] \/
   story_candidate U cfg relPath text m =
     Some [Located "Story" relPath (p + 1) 1 msg_StoryShort]).
Proof.
  intros Hm Hp Hbud Hl Hne Hattr Hskip.
  pose proof (finditer_start_lt _ _ _ needs_text_public_type Hm) as Hlt.
  pose proof (line_of_valid text _ Hlt) as Hln.
  set (ln := line_of text (m_start m)) in *.
  assert (Hscan : story_scan (splitlines text) ln (ln - 1) =
                  Some (if is_story_line (lstrip l) then Some p else None)).
  { rewrite (story_scan_passes (splitlines text) ln p (ln - 1));
      try lia.
    - now apply story_scan_stops.
    - intros k lk Hk. apply Hskip; lia. }
  split; [exact Hscan|].
  intros Hacc. fold (is_story_line (lstrip l)) in Hacc.
  rewrite Hacc in Hscan.
  now apply story_candidate_found.
Qed.

(* ================================================================= *)
(** ** The story rule in an exempt path *)

Lemma startswith_nil s : startswith s [] = true.
Proof. destruct s; reflexivity. Qed.

Lemma startswith_app_same t x : startswith (t ++ x) t = true.
Proof.
  induction t as [|a t IH]; cbn [app startswith]; [apply startswith_nil|].
  now rewrite N.eqb_refl, IH.
Qed.

(** The least index at which [t] occurs. *)
Lemma find_from_first t : forall n s i0,
  n <= length s ->
  startswith (skipn n s) t = true ->
  (forall i, i < n -> startswith (skipn i s) t = false) ->
  find_from t s i0 = (i0 + Z.of_nat n)%Z.
Proof.
  induction n as [|n IH]; intros s i0 Hn Hat Hbefore.
  - cbn [skipn] in Hat.
    destruct s; cbn [find_from]; rewrite Hat; lia.
  - destruct s as [|c s]; [simpl in Hn; lia|].
    pose proof (Hbefore 0 ltac:(lia)) as H0. cbn [skipn] in H0.
    cbn [find_from]. rewrite H0.
    rewrite (IH s (i0 + 1)%Z); [lia|simpl in Hn; lia|exact Hat|].
    intros i Hi. apply (Hbefore (S i)). lia.
Qed.

(** The text after the marker of a story line.  The line, stripped, is
    [pre ++ mk ++ rest]; lowercasing maps it character by character (as it
    does every ASCII line); [mk] is "story:" in some mix of cases, and it is
    the first such text of the line.  What the rule measures is then [rest],
    stripped. *)
Lemma story_after_marker l lc pre mk rest :
  lower U (strip l) = map lc (strip l) ->
  strip l = pre ++ mk ++ rest ->
  map lc mk = py "story:" ->
  (forall i, i < length pre ->
             startswith (skipn i (map lc (strip l))) (py "story:") = false) ->
  story_after U l = Some (strip rest).
Proof.
  intros Hlc Hsplit Hmk Hfirst. unfold story_after. rewrite Hlc.
  assert (Hlen : length mk = 6)
    by (rewrite <- (length_map lc), Hmk; reflexivity).
  assert (Hfind : find (py "story:") (map lc (strip l)) =
                  Z.of_nat (length pre)).
  { unfold find. rewrite (find_from_first (py "story:") (length pre));
      [lia| | |exact Hfirst].
    - rewrite length_map, Hsplit, length_app. lia.
    - rewrite Hsplit, !map_app, skipn_app, skipn_all2
        by (rewrite length_map; lia).
      rewrite length_map, Nat.sub_diag. cbn [skipn app].
      rewrite Hmk. apply startswith_app_same. }
  rewrite Hfind.
  replace (0 <=? Z.of_nat (length pre))%Z with true
    by (symmetry; apply Z.leb_le; lia).
  rewrite Nat2Z.id, Hsplit. f_equal. f_equal.
  rewrite skipn_app, skipn_all2 by lia.
  replace (length pre + 6 - length pre) with (length mk) by lia.
  cbn [app]. rewrite skipn_app, skipn_all, Nat.sub_diag. reflexivity.
Qed.

(** Lowercasing an ASCII string maps it character by character. *)
Lemma lower_ascii s : isascii s = true -> lower U s = map ascii_lower s.
Proof. intros H. unfold lower. now rewrite H. Qed.

(** C4.  Take a file below an Editor directory, with the exemption on, and
    a match of the declaration pattern in it.  If the scan above the
    declaration finds no story comment, the declaration gets no finding.
    If the declaration is a candidate without a suppression marker and the
    scan finds a story comment, let the comment line, stripped, be
    [pre ++ mk ++ rest], where [mk] is the first text of the line that is
    "story:" when case is ignored (lowercasing mapping the line character
    by character, as it does every ASCII line).  If [rest], stripped, has
    fewer than 20 characters, the finding for a comment that is too short
    is the declaration's finding, and it is among the results of the
    rule: the exemption does not hold it back. *)
Theorem exemption_keeps_short_story_finding cfg relPath text m :
  ExemptEditorNullChecks cfg = true ->
  in_editor relPath = true ->
  In m (finditer U public_type_pattern text) ->
  (story_scan (splitlines text) (line_of text (m_start m))
              (line_of text (m_start m) - 1) = Some None ->
   story_candidate U cfg relPath text m = Some [])
  /\
  (forall dl p l lc pre mk rest,
     story_interesting text (line_of text (m_start m)) (group_or_empty m 4) =
       Some true ->
     line_at text (line_of text (m_start m) - 1) = Some dl ->
     has_marker dl = false ->
     story_scan (splitlines text) (line_of text (m_start m))
                (line_of text (m_start m) - 1) = Some (Some p) ->
     nth_error (splitlines text) p = Some l ->
     lower U (strip l) = map lc (strip l) ->
     strip l = pre ++ mk ++ rest ->
     map lc mk = py "story:" ->
     (forall i, i < length pre ->
                startswith (skipn i (map lc (strip l))) (py "story:") =
                false) ->
     length (strip rest) < 20 ->
     story_candidate U cfg relPath text m =
       Some [Located "Story" relPath (p + 1) 1 msg_StoryShort]
     /\
     exists fs,
       StoryComments_loop U cfg relPath text = Some fs /\
       In (Located "Story" relPath (p + 1) 1 msg_StoryShort) fs).
Proof.
  intros Hflag Hpath Hm.
  pose proof (finditer_start_lt _ _ _ needs_text_public_type Hm) as Hlt.
  pose proof (line_of_valid text _ Hlt) as Hln.
  set (ln := line_of text (m_start m)) in *.
  split.
  - intros Hscan. unfold story_candidate. fold ln.
    destruct (story_interesting_total text ln (group_or_empty m 4)) as [b ->];
      [lia|].
    cbn [bind]. destruct b; cbn [negb]; [|reflexivity].
    destruct (line_at_in_range text (ln - 1)) as [dl ->]; [lia|].
    cbn [bind]. destruct (has_marker dl); [reflexivity|].
    rewrite Hscan. cbn [bind story_verdict]. rewrite Hflag, Hpath.
    reflexivity.
  - intros dl p l lc pre mk rest Hint Hdl Hmark Hscan Hl Hlc Hsplit Hmk
           Hfirst Hshort.
    pose proof (story_after_marker l lc pre mk rest Hlc Hsplit Hmk Hfirst)
      as Hafter.
    assert (Hcand : story_candidate U cfg relPath text m =
                    Some [Located "Story" relPath (p + 1) 1 msg_StoryShort]).
    { unfold story_candidate. fold ln. rewrite Hint. cbn [bind negb].
      rewrite Hdl. cbn [bind]. rewrite Hmark, Hscan. cbn [bind story_verdict].
      rewrite Hl. cbn [bind]. rewrite Hafter.
      replace (length (strip rest) <? 20) with true
        by (symmetry; apply Nat.ltb_lt; exact Hshort).
      reflexivity. }
    split; [exact Hcand|].
    destruct (StoryComments_loop_valid cfg relPath text) as (fs & Hfs & _).
    exists fs. split; [exact Hfs|].
    unfold StoryComments_loop in Hfs.
    eapply for_each_In; [exact Hfs|exact Hm|exact Hcand|now left].
Qed.

End Properties.

(* ================================================================= *)
(** ** The theorems at work on the example files *)

(** C6 as the spec states it fails in both directions.  In the first file
    the token is on the third line below the declaration and the
    declaration is no candidate; in the second the token is part of the type
    name, the rest of the line and the lines below hold none, and the
    declaration is a candidate. *)
Lemma token_on_third_line_below_not_seen :
  map (fun m => (m_start m, group_or_empty m 4))
      (finditer ascii_tables public_type_pattern file_split_decl) = [(0, [])]
  /\ nth_error (splitlines file_split_decl) 3 = Some (py "    : ISystem")
  /\ has_token (py "    : ISystem") = true
  /\ story_interesting file_split_decl 1 [] = Some false
  /\ StoryComments_loop ascii_tables cfg_default path_Grid file_split_decl =
     Some []
  /\ map (fun m => (m_start m, group_or_empty m 4))
         (finditer ascii_tables public_type_pattern file_named_authoring) =
     [(0, [])]
  /\ map has_token (splitlines file_named_authoring) = [true; false; false]
  /\ StoryComments_loop ascii_tables cfg_default path_Grid
       file_named_authoring =
     Some [Located "Story" path_Grid 1 1 msg_StoryMissing].
Proof. repeat split; vm_compute; reflexivity. Qed.

(** C5 as the spec states it fails: the line above the declaration is a
    comment that holds the marker in lower case, and the declaration is
    reported as having no story comment. *)
Lemma lowercase_story_comment_not_accepted :
  nth_error (splitlines file_lowercase_story) 0 = Some line_lowercase_story
  /\ startswith (lstrip line_lowercase_story) (py "//") = true
  /\ contains (py "story:") (lower ascii_tables line_lowercase_story) = true
  /\ story_scan (splitlines file_lowercase_story) 2 1 = Some None
  /\ StoryComments_loop ascii_tables cfg_default path_Grid
       file_lowercase_story =
     Some [Located "Story" path_Grid 2 1 msg_StoryMissing].
Proof. repeat split; vm_compute; reflexivity. Qed.

(** C6 at work: a component whose interface is on the declaration line. *)
Lemma interesting_candidate_lines_witness :
  story_interesting file_component 1 (py " : IComponentData") = Some true.
Proof.
  destruct (interesting_candidate_lines ascii_tables file_component
              (first_match public_type_pattern file_component))
    as (b & Hb & Hiff).
  - vm_compute. left. reflexivity.
  - assert (E : b = true) by (apply Hiff; left; reflexivity).
    rewrite E in Hb. exact Hb.
Defined.

(** C5 at work: a story comment above a blank line and an attribute. *)
Lemma story_line_accepted_case_sensitive_witness :
  story_scan (splitlines file_story_above_attribute) 4 3 = Some (Some 0)
  /\ StoryComments_loop ascii_tables cfg_default path_Grid
       file_story_above_attribute = Some [].
Proof.
  split; [|vm_compute; reflexivity].
  assert (E : line_of file_story_above_attribute
                (m_start (first_match public_type_pattern
                                      file_story_above_attribute)) = 4)
    by (vm_compute; reflexivity).
  destruct (story_line_accepted_case_sensitive ascii_tables cfg_default
              path_Grid file_story_above_attribute
              (first_match public_type_pattern file_story_above_attribute)
              0 line_story) as [H _].
  - vm_compute. left. reflexivity.
  - rewrite E. lia.
  - rewrite E. lia.
  - vm_compute. reflexivity.
  - vm_compute. discriminate.
  - vm_compute. reflexivity.
  - rewrite E. intros k lk Hk Hk2 Hn.
    destruct k as [|[|[|k]]]; try lia.
    + vm_compute in Hn. injection Hn as <-. left. reflexivity.
    + vm_compute in Hn. injection Hn as <-. right. reflexivity.
  - rewrite E in H. exact H.
Defined.

(** C4 at work: two files below an Editor directory, one without a story
    comment and one with a short one. *)
Lemma exemption_keeps_short_story_finding_witness :
  story_candidate ascii_tables cfg_default path_Editor file_no_story
    (first_match public_type_pattern file_no_story) = Some []
  /\ story_candidate ascii_tables cfg_default path_Editor file_short_story
       (first_match public_type_pattern file_short_story) =
     Some [Located "Story" path_Editor 1 1 msg_StoryShort].
Proof.
  split.
  - destruct (exemption_keeps_short_story_finding ascii_tables cfg_default
                path_Editor file_no_story
                (first_match public_type_pattern file_no_story))
      as [Ha _].
    + reflexivity.
    + vm_compute. reflexivity.
    + vm_compute. left. reflexivity.
    + apply Ha. vm_compute. reflexivity.
  - destruct (exemption_keeps_short_story_finding ascii_tables cfg_default
                path_Editor file_short_story
                (first_match public_type_pattern file_short_story))
      as [_ Hb].
    + reflexivity.
    + vm_compute. reflexivity.
    + vm_compute. left. reflexivity.
    + destruct (Hb (py "public class GridBaker : MonoBehaviour") 0
                   line_short_story ascii_lower
                   (py "// ") (py "Story:") (py " short")) as [Hc _].
      * vm_compute. reflexivity.
      * vm_compute. reflexivity.
      * vm_compute. reflexivity.
      * vm_compute. reflexivity.
      * vm_compute. reflexivity.
      * vm_compute. reflexivity.
      * vm_compute. reflexivity.
      * vm_compute. reflexivity.
      * intros i Hi. destruct i as [|[|[|i]]];
          try (vm_compute; reflexivity).
        vm_compute in Hi. lia.
      * vm_compute. lia.
      * exact Hc.
Defined.

(** C7 at work with the default settings. *)
Lemma class_rule_examples_witness :
  CheckSealedClasses ascii_tables cfg_default path_Grid
    (py "internal abstract class Bar") =
  [Located "Unsealed Class" path_Grid 1 1 (py "class 'Bar' is not sealed.")].
Proof.
  destruct (class_rule_examples ascii_tables cfg_default path_Grid eq_refl)
    as (_ & _ & _ & H & _).
  exact H.
Defined.

(** C8 at work: a directory of three files, the second unreadable. *)
Lemma unreadable_file_reported_witness :
  scan_tree ascii_tables cfg_default
    [(py "Assets/Scripts",
      [(py "Health.cs", ReadOk file_component);
       (py "Grid.cs", ReadFails (py "Permission denied"));
       (py "Move.cs", ReadOk file_story_above_attribute)])] =
  Some [Located "Story" (py "Assets/Scripts/Health.cs") 1 1 msg_StoryMissing;
        ReadError path_Grid (py "Permission denied")].
Proof.
  destruct (unreadable_file_reported ascii_tables cfg_default [] []
              (py "Assets/Scripts")
              [(py "Health.cs", ReadOk file_component)]
              [(py "Move.cs", ReadOk file_story_above_attribute)]
              (py "Grid.cs") (py "Permission denied"))
    as (_ & before & after & Hb & Ha & H).
  - vm_compute. reflexivity.
  - vm_compute. reflexivity.
  - vm_compute in Hb. injection Hb as <-.
    vm_compute in Ha. injection Ha as <-.
    exact H.
Defined.

(** C10 at work: the brace line of the body holds a ref argument. *)
Lemma closing_line_is_checked_witness :
  burst_window path_Grid (splitlines file_brace_ref) [2; 3] =
    Some [Located "Burst+ref" path_Grid 3 1 msg_BurstRef]
  /\
  exists fs,
    BurstRef_loop ascii_tables path_Grid file_brace_ref = Some fs /\
    In (Located "Burst+ref" path_Grid 3 1 msg_BurstRef) fs.
Proof.
  apply (closing_line_is_checked ascii_tables path_Grid file_brace_ref 0 2
           (py "[BurstCompile]") (py "{ Update(ref value); }")).
  - vm_compute. reflexivity.
  - vm_compute. reflexivity.
  - lia.
  - vm_compute. reflexivity.
  - intros k lk Hk Hn. destruct k as [|[|k]]; try lia.
    vm_compute in Hn. injection Hn as <-. vm_compute. reflexivity.
  - vm_compute. reflexivity.
  - vm_compute. reflexivity.
  - vm_compute. reflexivity.
  - vm_compute. reflexivity.
Defined.

(* ================================================================= *)
(** ** Positions, lines and columns *)

Lemma count_chr_app c a b :
  count_chr c (a ++ b) = count_chr c a + count_chr c b.
Proof. induction a as [|x a IH]; simpl; [reflexivity|]. rewrite IH. lia. Qed.

Lemma count_chr_firstn_mono c : forall s i j,
  i <= j -> count_chr c (firstn i s) <= count_chr c (firstn j s).
Proof.
  induction s as [|x s IH]; intros i j Hij.
  - rewrite !firstn_nil. lia.
  - destruct i as [|i]; [simpl; lia|].
    destruct j as [|j]; [lia|]. simpl.
    specialize (IH i j ltac:(lia)). lia.
Qed.

Lemma line_of_mono text i j : i <= j -> line_of text i <= line_of text j.
Proof.
  intros H. unfold line_of.
  pose proof (count_chr_firstn_mono LF text i j H). lia.
Qed.

Lemma no_break_no_LF s : no_break s = true -> count_chr LF s = 0.
Proof.
  induction s as [|c s IH]; [reflexivity|]. unfold no_break. simpl.
  intros H. apply andb_true_iff in H. destruct H as [Hc Hs].
  apply negb_true_iff in Hc. rewrite (not_linebreak_not_LF _ Hc).
  simpl. apply IH. exact Hs.
Qed.

Lemma no_break_firstn s k : no_break s = true -> no_break (firstn k s) = true.
Proof.
  revert k. induction s as [|c s IH]; intros k H.
  - now rewrite firstn_nil.
  - destruct k; [reflexivity|]. unfold no_break in *. simpl in *.
    apply andb_true_iff in H. destruct H as [Hc Hs].
    rewrite Hc. simpl. now apply IH.
Qed.

Lemma rfind_chr_app c a : forall b i last,
  rfind_chr c (a ++ b) i last =
  rfind_chr c b (i + Z.of_nat (length a))%Z (rfind_chr c a i last).
Proof.
  induction a as [|x a IH]; intros b i last.
  - simpl. now rewrite Z.add_0_r.
  - cbn [app rfind_chr length]. rewrite IH. f_equal. lia.
Qed.

Lemma rfind_chr_absent c s : forall i last,
  count_chr c s = 0 -> rfind_chr c s i last = last.
Proof.
  induction s as [|x s IH]; intros i last H; [reflexivity|].
  simpl in *. destruct (N.eqb x c); [discriminate|]. now apply IH.
Qed.

(** The index of the last "\n" of a text that is empty or ends with one. *)
Lemma rfind_chr_ends_LF pre :
  last pre LF = LF ->
  rfind_chr LF pre 0 (-1) = (Z.of_nat (length pre) - 1)%Z.
Proof.
  intros H. destruct pre as [|x pre] using rev_ind; [reflexivity|].
  rewrite last_last in H. subst x.
  rewrite rfind_chr_app, length_app. simpl. lia.
Qed.

Lemma firstn_in_middle (pre mid post : str) k :
  k <= length mid ->
  firstn (length pre + k) (pre ++ mid ++ post) = pre ++ firstn k mid.
Proof.
  intros H. rewrite firstn_app_2, firstn_app.
  replace (k - length mid) with 0 by lia.
  now rewrite firstn_O, app_nil_r.
Qed.

(** A line without a line break in it, up to its end. *)
Lemma splitlines_from_line mid post : forall cur,
  no_break mid = true -> at_line_end post = true ->
  cur <> [] \/ mid <> [] \/ post <> [] ->
  hd_error (splitlines_from cur (mid ++ post)) = Some (rev cur ++ mid).
Proof.
  induction mid as [|c mid IH]; intros cur Hmid Hpost Hne.
  - rewrite app_nil_r. cbn [app].
    destruct post as [|b post].
    + destruct cur as [|x cur]; [destruct Hne as [?|[?|?]]; congruence|].
      reflexivity.
    + simpl in Hpost. cbn [splitlines_from]. rewrite Hpost. reflexivity.
  - unfold no_break in Hmid. simpl in Hmid.
    apply andb_true_iff in Hmid. destruct Hmid as [Hc Hmid].
    apply negb_true_iff in Hc.
    cbn [app splitlines_from]. rewrite Hc.
    rewrite IH; [|exact Hmid|exact Hpost|left; discriminate].
    simpl. now rewrite <- app_assoc.
Qed.

Lemma splitlines_from_skips n mid post : forall pre cur,
  length pre <= n ->
  plain_breaks pre = true -> last pre LF = LF ->
  no_break mid = true -> at_line_end post = true -> mid <> [] ->
  nth_error (splitlines_from cur (pre ++ mid ++ post)) (count_chr LF pre) =
  Some (match pre with [] => rev cur ++ mid | _ :: _ => mid end).
Proof.
  induction n as [|n IH]; intros pre cur Hn Hpre Hlast Hmid Hpost Hne.
  - destruct pre; [|simpl in Hn; lia]. cbn [app count_chr].
    pose proof (splitlines_from_line mid post cur Hmid Hpost
                  (or_intror (or_introl Hne))) as H.
    destruct (splitlines_from cur (mid ++ post)); [discriminate|exact H].
  - destruct pre as [|c pre].
    { apply (IH [] cur); simpl; auto; lia. }
    simpl in Hn. cbn [plain_breaks] in Hpre.
    assert (Hrest : forall (q : str), q ++ mid ++ post <> []).
    { intros q E. apply app_eq_nil in E. destruct E as [_ E].
      apply app_eq_nil in E. destruct E. congruence. }
    destruct (N.eqb_spec c LF) as [->|HcLF].
    + (* a line ends with "\n" *)
      cbn [app splitlines_from count_chr].
      replace (islinebreak LF) with true by reflexivity.
      replace (N.eqb LF LF) with true by reflexivity.
      replace (N.eqb LF CR) with false by reflexivity.
      cbn [andb Nat.add nth_error].
      assert (Hl : last pre LF = LF)
        by (destruct pre; [reflexivity|exact Hlast]).
      specialize (IH pre [] ltac:(lia) Hpre Hl Hmid Hpost Hne).
      destruct (pre ++ mid ++ post) eqn:E; [now apply Hrest in E|].
      rewrite IH. destruct pre; reflexivity.
    + destruct (N.eqb_spec c CR) as [->|HcCR].
      * (* a line ends with "\r\n" *)
        destruct pre as [|c' pre]; [discriminate|].
        apply andb_true_iff in Hpre. destruct Hpre as [Hc' Hpre].
        apply N.eqb_eq in Hc'. subst c'.
        cbn [app splitlines_from count_chr].
        replace (islinebreak CR) with true by reflexivity.
        replace (N.eqb CR LF) with false by reflexivity.
        replace (N.eqb CR CR) with true by reflexivity.
        replace (N.eqb LF LF) with true by reflexivity.
        cbn [andb Nat.add nth_error].
        assert (Hl : last pre LF = LF)
          by (destruct pre; [reflexivity|exact Hlast]).
        simpl in Hn.
        specialize (IH pre [] ltac:(lia) Hpre Hl Hmid Hpost Hne).
        rewrite IH. destruct pre; reflexivity.
      * (* a character inside a line *)
        apply andb_true_iff in Hpre. destruct Hpre as [Hc Hpre].
        apply negb_true_iff in Hc.
        cbn [app splitlines_from count_chr]. rewrite Hc.
        replace (N.eqb c LF) with false
          by (symmetry; now apply N.eqb_neq).
        cbn [Nat.add].
        destruct pre as [|c' pre]; [simpl in Hlast; congruence|].
        assert (Hl : last (c' :: pre) LF = LF) by exact Hlast.
        exact (IH (c' :: pre) (c :: cur) ltac:(lia) Hpre Hl Hmid Hpost Hne).
Qed.

(** X1.  Take a position inside a line [mid] of a text, the text before the
    line being empty or ending with a newline and having no line breaks
    other than "\n" and "\r\n".  The line number computed for the
    position is one more than the number of newlines before the line, the
    column is the offset in the line counted from one, and the line that
    the rules fetch from [text.splitlines()] for that line number is
    [mid]. *)
Theorem position_in_its_line pre mid post k :
  plain_breaks pre = true ->
  last pre LF = LF ->
  no_break mid = true ->
  at_line_end post = true ->
  k < length mid ->
  line_of (pre ++ mid ++ post) (length pre + k) = count_chr LF pre + 1 /\
  col_of (pre ++ mid ++ post) (length pre + k) = (Z.of_nat k + 1)%Z /\
  line_at (pre ++ mid ++ post)
          (line_of (pre ++ mid ++ post) (length pre + k) - 1) = Some mid.
Proof.
  intros Hpre Hlast Hmid Hpost Hk.
  assert (Hline : line_of (pre ++ mid ++ post) (length pre + k) =
                  count_chr LF pre + 1).
  { unfold line_of. rewrite firstn_in_middle by lia.
    rewrite count_chr_app, (no_break_no_LF (firstn k mid)); [lia|].
    now apply no_break_firstn. }
  split; [exact Hline|]. split.
  - unfold col_of. rewrite firstn_in_middle by lia.
    rewrite rfind_chr_app, rfind_chr_absent, rfind_chr_ends_LF; [lia|exact Hlast|].
    apply no_break_no_LF. now apply no_break_firstn.
  - rewrite Hline. replace (count_chr LF pre + 1 - 1) with (count_chr LF pre)
      by lia.
    unfold line_at, splitlines.
    rewrite (splitlines_from_skips (length pre) mid post pre []);
      auto.
    + destruct pre; reflexivity.
    + intros E. subst mid. simpl in Hk. lia.
Qed.

Section Coverage.

Variable U : unicode_db.

(* ================================================================= *)
(** ** What a match of [finditer] is *)

Lemma finditer_from_sound r : forall s prev idx skip m,
  In m (finditer_from U r prev s idx skip) ->
  exists k s_end,
    m_start m = idx + k /\
    match_here U r (match k with O => prev | S k' => nth_error s k' end)
               (skipn k s) = Some (s_end, m_caps m).
Proof.
  induction s as [|c s IH]; intros prev idx skip m Hin.
  - destruct skip; cbn [finditer_from] in Hin; [|destruct Hin].
    destruct (match_here U r prev []) as [[s_end g]|] eqn:E; [|destruct Hin].
    destruct Hin as [<-|[]]. exists 0, s_end. split; [simpl; lia|exact E].
  - assert (Hshift : forall skip',
              In m (finditer_from U r (Some c) s (S idx) skip') ->
              exists k s_end,
                m_start m = idx + k /\
                match_here U r
                  (match k with O => prev | S k' => nth_error (c :: s) k' end)
                  (skipn k (c :: s)) = Some (s_end, m_caps m)).
    { intros skip' H. apply IH in H. destruct H as (k & s_end & Hk & Hm).
      exists (S k), s_end. split; [lia|]. cbn [skipn].
      destruct k; exact Hm. }
    destruct skip as [|k0]; cbn [finditer_from] in Hin;
      [|exact (Hshift _ Hin)].
    destruct (match_here U r prev (c :: s)) as [[s_end g]|] eqn:E.
    + destruct Hin as [<-|Hin]; [|exact (Hshift _ Hin)].
      exists 0, s_end. split; [simpl; lia|exact E].
    + exact (Hshift _ Hin).
Qed.

(** A match of [finditer] is a match of the pattern at its start, seen with
    the character before it. *)
Lemma finditer_sound r text m :
  In m (finditer U r text) ->
  exists s_end,
    match_here U r (char_before text (m_start m)) (skipn (m_start m) text) =
    Some (s_end, m_caps m).
Proof.
  intros Hin. apply finditer_from_sound in Hin.
  destruct Hin as (k & s_end & Hk & Hm). simpl in Hk. rewrite Hk.
  exists s_end. exact Hm.
Qed.

Lemma finditer_from_ge r : forall s prev idx skip m,
  In m (finditer_from U r prev s idx skip) -> idx <= m_start m.
Proof.
  intros s prev idx skip m Hin. apply finditer_from_sound in Hin.
  destruct Hin as (k & _ & Hk & _). lia.
Qed.

Lemma finditer_from_ascending r : forall s prev idx skip,
  StronglySorted lt (map m_start (finditer_from U r prev s idx skip)).
Proof.
  induction s as [|c s IH]; intros prev idx skip.
  - destruct skip; cbn [finditer_from]; [|constructor].
    destruct (match_here U r prev []) as [[s_end g]|]; repeat constructor.
  - destruct skip as [|k0]; cbn [finditer_from]; [|apply IH].
    destruct (match_here U r prev (c :: s)) as [[s_end g]|]; [|apply IH].
    cbn [map m_start]. constructor; [apply IH|].
    apply Forall_forall. intros i Hi. apply in_map_iff in Hi.
    destruct Hi as (m & <- & Hm). apply finditer_from_ge in Hm. lia.
Qed.

(* ================================================================= *)
(** ** The order of the findings of a pattern rule *)

Lemma for_each_as_flat_map {A} (body : A -> option (list Finding)) xs :
  forall rs, for_each body xs = Some rs ->
  rs = flat_map (fun x => match body x with Some r => r | None => [] end) xs.
Proof.
  induction xs as [|x xs IH]; intros rs H; simpl in H.
  - now injection H as <-.
  - destruct (body x) as [r|] eqn:Ex; [|discriminate]. simpl in H.
    destruct (for_each body xs) as [rs'|]; [|discriminate]. simpl in H.
    injection H as <-. simpl. rewrite Ex. f_equal. now apply IH.
Qed.

Lemma lines_ascending text (body : Match -> list Finding) : forall ms,
  StronglySorted lt (map m_start ms) ->
  (forall m f, In m ms -> In f (body m) ->
               finding_line f = line_of text (m_start m)) ->
  StronglySorted le (map finding_line (flat_map body ms)).
Proof.
  induction ms as [|m ms IH]; intros Hs Hb; [constructor|].
  cbn [flat_map map] in *. inversion Hs as [|? ? Hs' Hlt]; subst.
  rewrite map_app.
  assert (Hrest : Forall (le (line_of text (m_start m)))
                         (map finding_line (flat_map body ms))).
  { apply Forall_forall. intros n Hn. apply in_map_iff in Hn.
    destruct Hn as (f & <- & Hf). apply in_flat_map in Hf.
    destruct Hf as (m' & Hm' & Hf).
    rewrite (Hb m' f (or_intror Hm') Hf). apply line_of_mono.
    rewrite Forall_forall in Hlt.
    specialize (Hlt (m_start m') (in_map m_start _ _ Hm')). lia. }
  assert (Hhere : Forall (eq (line_of text (m_start m)))
                         (map finding_line (body m))).
  { apply Forall_forall. intros n Hn. apply in_map_iff in Hn.
    destruct Hn as (f & <- & Hf). symmetry.
    apply Hb; [now left|exact Hf]. }
  specialize (IH Hs' (fun m' f Hm' => Hb m' f (or_intror Hm'))).
  induction (map finding_line (body m)) as [|n l IHl]; [exact IH|].
  inversion Hhere; subst. cbn [app]. constructor; [now apply IHl|].
  apply Forall_app. split; [|exact Hrest].
  match goal with H : Forall (eq _) l |- _ =>
    revert H; apply Forall_impl; intros; subst; lia end.
Qed.

Lemma map_as_flat_map {A B} (f : A -> B) xs :
  map f xs = flat_map (fun x => [f x]) xs.
Proof. induction xs as [|x xs IH]; simpl; [reflexivity|now rewrite IH]. Qed.

Lemma flat_map_kept {A B} (keep : A -> bool) (hit : A -> B)
    (g : A -> list B) xs :
  (forall x, In x xs -> g x = if keep x then [hit x] else []) ->
  flat_map g xs = map hit (filter keep xs).
Proof.
  induction xs as [|x xs IH]; intros H; [reflexivity|].
  cbn [flat_map filter]. rewrite (H x (or_introl eq_refl)).
  rewrite IH by (intros; apply H; now right).
  destruct (keep x); reflexivity.
Qed.

Lemma starts_ascending_filter (keep : Match -> bool) ms :
  StronglySorted lt (map m_start ms) ->
  StronglySorted lt (map m_start (filter keep ms)).
Proof.
  induction ms as [|m ms IH]; intros H; [constructor|].
  cbn [map] in H. inversion H as [|? ? Hs Hlt]; subst.
  cbn [filter]. destruct (keep m); [|now apply IH].
  cbn [map]. constructor; [now apply IH|].
  apply Forall_forall. intros i Hi. apply in_map_iff in Hi.
  destruct Hi as (m' & <- & Hm'). apply filter_In in Hm'.
  rewrite Forall_forall in Hlt. apply Hlt. apply in_map. apply Hm'.
Qed.

Lemma hits_lines_ascending text (hit : Match -> Finding) ms :
  (forall m, finding_line (hit m) = line_of text (m_start m)) ->
  StronglySorted lt (map m_start ms) ->
  StronglySorted le (map finding_line (map hit ms)).
Proof.
  intros Hhit Hs. rewrite (map_as_flat_map hit).
  apply (lines_ascending text); [exact Hs|].
  intros m f _ [<-|[]]. apply Hhit.
Qed.

(** X2.  The findings of each of the four rules that report the matches of
    one pattern (arrays, null, classes, Entity.Null) are the findings of
    some of the matches of the pattern, one for each, in the order of the
    matches, whose start positions increase strictly.  So the line numbers
    of the findings of a rule never decrease, and two findings of a rule
    for one line come in the order of their positions. *)
Theorem pattern_rule_findings_in_match_order cfg relPath text :
  (exists ms,
     incl ms (finditer U pat_NativeArray text) /\
     StronglySorted lt (map m_start ms) /\
     CheckNativeArray U cfg relPath text =
       map (fun m => Located "NativeArray" relPath
                             (line_of text (m_start m))
                             (col_of text (m_start m)) msg_NativeArray) ms /\
     StronglySorted le
       (map finding_line (CheckNativeArray U cfg relPath text))) /\
  (exists ms,
     incl ms (finditer U pat_Class text) /\
     StronglySorted lt (map m_start ms) /\
     CheckSealedClasses U cfg relPath text =
       map (fun m => Located "Unsealed Class" relPath
                             (line_of text (m_start m)) 1
                             (msg_Unsealed (fmt_group (group m 6)))) ms /\
     StronglySorted le
       (map finding_line (CheckSealedClasses U cfg relPath text))) /\
  (exists ms,
     incl ms (finditer U pat_Null text) /\
     StronglySorted lt (map m_start ms) /\
     CheckNulls U cfg relPath text =
       Some (map (fun m => Located "Null" relPath
                                   (line_of text (m_start m))
                                   (col_of text (m_start m)) msg_Null) ms) /\
     StronglySorted le
       (map finding_line
            (map (fun m => Located "Null" relPath
                                   (line_of text (m_start m))
                                   (col_of text (m_start m)) msg_Null) ms))) /\
  (exists ms,
     incl ms (finditer U pat_EntityNull text) /\
     StronglySorted lt (map m_start ms) /\
     CheckEntityNull U cfg relPath text =
       Some (map (fun m => Located "Entity.Null" relPath
                                   (line_of text (m_start m)) 1
                                   msg_EntityNull) ms) /\
     StronglySorted le
       (map finding_line
            (map (fun m => Located "Entity.Null" relPath
                                   (line_of text (m_start m)) 1
                                   msg_EntityNull) ms))).
Proof.
  assert (Hnil : forall r,
            incl (@nil Match) (finditer U r text) /\
            StronglySorted lt (map m_start (@nil Match)))
    by (intros r; split; [intros x []|constructor]).
  repeat split.
  - unfold CheckNativeArray.
    destruct (CheckNativeArray_on cfg && search U pat_NativeArray text).
    + exists (finditer U pat_NativeArray text).
      split; [apply incl_refl|].
      split; [apply finditer_from_ascending|].
      split; [reflexivity|].
      apply (hits_lines_ascending text); [reflexivity|].
      apply finditer_from_ascending.
    + exists []. destruct (Hnil pat_NativeArray) as [H1 H2].
      split; [exact H1|]. split; [exact H2|].
      split; [reflexivity|constructor].
  - unfold CheckSealedClasses. destruct (CheckSealedClasses_on cfg).
    + set (keep := fun m : Match =>
                     negb (truthy (group m 3)) && negb (truthy (group m 4))).
      exists (filter keep (finditer U pat_Class text)).
      split; [apply incl_filter|].
      split; [apply starts_ascending_filter, finditer_from_ascending|].
      assert (E : flat_map (Class_hit relPath text)
                           (finditer U pat_Class text) =
                  map (fun m => Located "Unsealed Class" relPath
                                        (line_of text (m_start m)) 1
                                        (msg_Unsealed (fmt_group (group m 6))))
                      (filter keep (finditer U pat_Class text))).
      { apply flat_map_kept. intros m _. unfold Class_hit, keep.
        destruct (negb (truthy (group m 3)) && negb (truthy (group m 4)));
          reflexivity. }
      split; [exact E|]. rewrite E.
      apply (hits_lines_ascending text); [reflexivity|].
      apply starts_ascending_filter, finditer_from_ascending.
    + exists []. destruct (Hnil pat_Class) as [H1 H2].
      split; [exact H1|]. split; [exact H2|].
      split; [reflexivity|constructor].
  - set (hit := fun m : Match =>
                  Located "Null" relPath (line_of text (m_start m))
                          (col_of text (m_start m)) msg_Null).
    set (keep := fun m : Match =>
                   match line_at text (line_of text (m_start m) - 1) with
                   | Some l => negb (has_marker l)
                   | None => false
                   end).
    destruct (CheckNulls_valid U cfg relPath text) as (r & Hr & _).
    rewrite Hr. unfold CheckNulls in Hr.
    assert (Hoff : r = [] ->
              exists ms, incl ms (finditer U pat_Null text) /\
                StronglySorted lt (map m_start ms) /\
                Some r = Some (map hit ms) /\
                StronglySorted le (map finding_line (map hit ms))).
    { intros ->. exists []. destruct (Hnil pat_Null) as [H1 H2].
      split; [exact H1|]. split; [exact H2|].
      split; [reflexivity|constructor]. }
    destruct (CheckNulls_on cfg); [|injection Hr as <-; now apply Hoff].
    destruct (negb (ExemptEditorNullChecks cfg && in_editor relPath));
      [|injection Hr as <-; now apply Hoff].
    exists (filter keep (finditer U pat_Null text)).
    split; [apply incl_filter|].
    split; [apply starts_ascending_filter, finditer_from_ascending|].
    split.
    + f_equal. rewrite (for_each_as_flat_map _ _ _ Hr).
      apply flat_map_kept. intros m _. unfold Null_hit, keep, hit.
      destruct (line_at text (line_of text (m_start m) - 1)) as [l|];
        [|reflexivity].
      cbn [bind]. destruct (has_marker l); reflexivity.
    + apply (hits_lines_ascending text); [reflexivity|].
      apply starts_ascending_filter, finditer_from_ascending.
  - set (hit := fun m : Match =>
                  Located "Entity.Null" relPath (line_of text (m_start m)) 1
                          msg_EntityNull).
    set (keep := fun m : Match =>
                   match line_at text (line_of text (m_start m) - 1) with
                   | Some l => negb (has_marker l)
                   | None => false
                   end).
    destruct (CheckEntityNull_valid U cfg relPath text) as (r & Hr & _).
    rewrite Hr. unfold CheckEntityNull in Hr.
    destruct (CheckEntityNull_on cfg && search U pat_EntityNull text).
    + exists (filter keep (finditer U pat_EntityNull text)).
      split; [apply incl_filter|].
      split; [apply starts_ascending_filter, finditer_from_ascending|].
      split.
      * f_equal. rewrite (for_each_as_flat_map _ _ _ Hr).
        apply flat_map_kept. intros m _. unfold EntityNull_hit, keep, hit.
        destruct (line_at text (line_of text (m_start m) - 1)) as [l|];
          [|reflexivity].
        cbn [bind]. destruct (has_marker l); reflexivity.
      * apply (hits_lines_ascending text); [reflexivity|].
        apply starts_ascending_filter, finditer_from_ascending.
    + injection Hr as <-. exists []. destruct (Hnil pat_EntityNull) as [H1 H2].
      split; [exact H1|]. split; [exact H2|].
      split; [reflexivity|constructor].
Qed.

(* ================================================================= *)
(** ** What a finding of each rule says about the text *)

Lemma for_each_Forall_in {A} (P : A -> Finding -> Prop)
    (body : A -> option (list Finding)) xs :
  (forall x r, In x xs -> body x = Some r -> Forall (P x) r) ->
  forall rs, for_each body xs = Some rs ->
  Forall (fun f => exists x, In x xs /\ P x f) rs.
Proof.
  induction xs as [|x xs IH]; intros H rs Hrs; simpl in Hrs.
  - injection Hrs as <-. constructor.
  - destruct (body x) as [r|] eqn:Ex; [|discriminate]. simpl in Hrs.
    destruct (for_each body xs) as [rs'|]; [|discriminate]. simpl in Hrs.
    injection Hrs as <-. apply Forall_app. split.
    + specialize (H x r (or_introl eq_refl) Ex). revert H.
      apply Forall_impl. intros f Hf. exists x. split; [now left|exact Hf].
    + specialize (IH (fun y r' Hy => H y r' (or_intror Hy)) rs' eq_refl).
      revert IH. apply Forall_impl. intros f (y & Hy & Hf).
      exists y. split; [now right|exact Hf].
Qed.

Lemma Null_hit_sound relPath text m r :
  Null_hit relPath text m = Some r ->
  Forall (fun f => exists l,
            f = Located "Null" relPath (line_of text (m_start m))
                        (col_of text (m_start m)) msg_Null /\
            line_at text (line_of text (m_start m) - 1) = Some l /\
            has_marker l = false) r.
Proof.
  unfold Null_hit. intros H.
  destruct (line_at text (line_of text (m_start m) - 1)) as [l|];
    [|discriminate].
  cbn [bind] in H. destruct (has_marker l) eqn:Hm; injection H as <-;
    constructor; [|constructor].
  exists l. auto.
Qed.

Lemma EntityNull_hit_sound relPath text m r :
  EntityNull_hit relPath text m = Some r ->
  Forall (fun f => exists l,
            f = Located "Entity.Null" relPath (line_of text (m_start m)) 1
                        msg_EntityNull /\
            line_at text (line_of text (m_start m) - 1) = Some l /\
            has_marker l = false) r.
Proof.
  unfold EntityNull_hit. intros H.
  destruct (line_at text (line_of text (m_start m) - 1)) as [l|];
    [|discriminate].
  cbn [bind] in H. destruct (has_marker l) eqn:Hm; injection H as <-;
    constructor; [|constructor].
  exists l. auto.
Qed.

(** X3.  The null rule and the Entity.Null rule end without an exception,
    and each of their findings is for a match of the rule's pattern, at the
    line and (for null) the column computed for the start of the match; the
    line fetched from [text.splitlines()] for that line number holds no
    suppression marker, and for a null finding the rule is on and the file
    is not exempt as an Editor file. *)
Theorem null_findings_not_suppressed cfg relPath text :
  (exists r,
     CheckNulls U cfg relPath text = Some r /\
     Forall (fun f => exists m l,
               In m (finditer U pat_Null text) /\
               f = Located "Null" relPath (line_of text (m_start m))
                           (col_of text (m_start m)) msg_Null /\
               line_at text (line_of text (m_start m) - 1) = Some l /\
               has_marker l = false /\
               CheckNulls_on cfg = true /\
               ExemptEditorNullChecks cfg && in_editor relPath = false) r) /\
  (exists r,
     CheckEntityNull U cfg relPath text = Some r /\
     Forall (fun f => exists m l,
               In m (finditer U pat_EntityNull text) /\
               f = Located "Entity.Null" relPath (line_of text (m_start m)) 1
                           msg_EntityNull /\
               line_at text (line_of text (m_start m) - 1) = Some l /\
               has_marker l = false /\
               CheckEntityNull_on cfg = true) r).
Proof.
  split.
  - destruct (CheckNulls_valid U cfg relPath text) as (r & Hr & _).
    exists r. split; [exact Hr|]. unfold CheckNulls in Hr.
    destruct (CheckNulls_on cfg); [|injection Hr as <-; constructor].
    destruct (ExemptEditorNullChecks cfg && in_editor relPath) eqn:He;
      cbn [negb] in Hr; [injection Hr as <-; constructor|].
    pose proof (for_each_Forall_in _ _ _
                  (fun m r' _ => Null_hit_sound relPath text m r') r Hr) as H.
    revert H. apply Forall_impl. intros f (m & Hm & l & Hf & Hl & Hmk).
    exists m, l. auto 10.
  - destruct (CheckEntityNull_valid U cfg relPath text) as (r & Hr & _).
    exists r. split; [exact Hr|]. unfold CheckEntityNull in Hr.
    destruct (CheckEntityNull_on cfg); cbn [andb] in Hr;
      [|injection Hr as <-; constructor].
    destruct (search U pat_EntityNull text);
      [|injection Hr as <-; constructor].
    pose proof (for_each_Forall_in _ _ _
                  (fun m r' _ => EntityNull_hit_sound relPath text m r') r Hr)
      as H.
    revert H. apply Forall_impl. intros f (m & Hm & l & Hf & Hl & Hmk).
    exists m, l. auto 10.
Qed.

Lemma burst_window_sound relPath lines js : forall fs,
  burst_window relPath lines js = Some fs ->
  Forall (fun f => exists j lj,
            In j js /\ nth_error lines j = Some lj /\ ref_line lj = true /\
            f = Located "Burst+ref" relPath (j + 1) 1 msg_BurstRef) fs.
Proof.
  induction js as [|j js IH]; intros fs H; cbn [burst_window] in H.
  - injection H as <-. constructor.
  - assert (IH' : forall fs0, burst_window relPath lines js = Some fs0 ->
              Forall (fun f => exists j0 lj,
                        In j0 (j :: js) /\ nth_error lines j0 = Some lj /\
                        ref_line lj = true /\
                        f = Located "Burst+ref" relPath (j0 + 1) 1
                                    msg_BurstRef) fs0).
    { intros fs0 H0. apply IH in H0. revert H0. apply Forall_impl.
      intros f (j0 & lj & Hj0 & Hrest). exists j0, lj.
      split; [now right|exact Hrest]. }
    destruct (nth_error lines j) as [lj|] eqn:Ej; [|discriminate].
    cbn [bind] in H.
    destruct (contains (py "ref ") lj) eqn:Href.
    + destruct (has_marker lj) eqn:Hmk; [now apply IH'|].
      destruct (contains (py "ref SystemState") lj) eqn:Hal; [now apply IH'|].
      assert (Hj : exists j0 lj0,
                 In j0 (j :: js) /\ nth_error lines j0 = Some lj0 /\
                 ref_line lj0 = true /\
                 Located "Burst+ref" relPath (j + 1) 1 msg_BurstRef =
                 Located "Burst+ref" relPath (j0 + 1) 1 msg_BurstRef).
      { exists j, lj. split; [now left|]. split; [exact Ej|].
        split; [|reflexivity]. unfold ref_line. now rewrite Href, Hmk, Hal. }
      destruct (closes_window lj).
      * injection H as <-. constructor; [exact Hj|constructor].
      * destruct (burst_window relPath lines js) as [rest|]; [|discriminate].
        injection H as <-. constructor; [exact Hj|]. now apply IH'.
    + destruct (closes_window lj); [injection H as <-; constructor|].
      now apply IH'.
Qed.

Lemma in_combine_seq (l : str) : forall (ls : list str) a k,
  In (k, l) (combine (seq a (length ls)) ls) ->
  a <= k /\ nth_error ls (k - a) = Some l.
Proof.
  induction ls as [|x ls IH]; intros a k Hin; [destruct Hin|].
  simpl in Hin. destruct Hin as [E|Hin].
  - injection E as <- <-. rewrite Nat.sub_diag. split; [lia|reflexivity].
  - apply IH in Hin. destruct Hin as [Hle Hn]. split; [lia|].
    replace (k - a) with (S (k - S a)) by lia. exact Hn.
Qed.

Lemma in_enumerate lines i l :
  In (i, l) (enumerate lines) -> nth_error lines i = Some l.
Proof.
  intros Hin. apply in_combine_seq in Hin.
  rewrite Nat.sub_0_r in Hin. apply Hin.
Qed.

(** X4.  The Burst rule ends without an exception, and each of its
    findings is for a line that holds "ref ", holds no suppression marker
    and does not hold "ref SystemState", one of the 19 lines after a line
    in which the attribute pattern has a match. *)
Theorem burst_findings_sound relPath text :
  exists fs,
    BurstRef_loop U relPath text = Some fs /\
    Forall (fun f => exists i j li lj,
              nth_error (splitlines text) i = Some li /\
              search U pat_Burst li = true /\
              i < j < i + 20 /\
              nth_error (splitlines text) j = Some lj /\
              contains (py "ref ") lj = true /\
              has_marker lj = false /\
              contains (py "ref SystemState") lj = false /\
              f = Located "Burst+ref" relPath (j + 1) 1 msg_BurstRef) fs.
Proof.
  destruct (BurstRef_loop_valid U relPath text) as (fs & Hfs & _).
  exists fs. split; [exact Hfs|]. unfold BurstRef_loop in Hfs.
  set (lines := splitlines text) in *.
  assert (Hbody : forall il r, In il (enumerate lines) ->
            burst_trigger U relPath lines il = Some r ->
            Forall (fun f => exists j lj,
                      search U pat_Burst (snd il) = true /\
                      fst il < j < fst il + 20 /\
                      nth_error lines j = Some lj /\ ref_line lj = true /\
                      f = Located "Burst+ref" relPath (j + 1) 1 msg_BurstRef)
                   r).
  { intros [i l] r _ Hr. unfold burst_trigger in Hr. cbn [fst snd].
    destruct (search U pat_Burst l); [|injection Hr as <-; constructor].
    apply burst_window_sound in Hr. revert Hr. apply Forall_impl.
    intros f (j & lj & Hj & Hlj & Href & ->). apply in_range in Hj.
    exists j, lj. repeat split; auto; lia. }
  pose proof (for_each_Forall_in
                (fun il f => exists j lj,
                   search U pat_Burst (snd il) = true /\
                   fst il < j < fst il + 20 /\
                   nth_error lines j = Some lj /\ ref_line lj = true /\
                   f = Located "Burst+ref" relPath (j + 1) 1 msg_BurstRef)
                _ _ Hbody fs Hfs) as H.
  revert H. apply Forall_impl.
  intros f ([i l] & Hil & j & lj & Hs & Hij & Hlj & Href & ->).
  cbn [fst snd] in *. apply in_enumerate in Hil.
  unfold ref_line in Href.
  apply andb_true_iff in Href. destruct Href as [Href Hal].
  apply andb_true_iff in Href. destruct Href as [Href Hmk].
  apply negb_true_iff in Hal. apply negb_true_iff in Hmk.
  exists i, j, l, lj. auto 12.
Qed.

(* ================================================================= *)
(** ** The story rule: what it reports *)

Lemma story_scan_sound lines ln : forall n p,
  story_scan lines ln n = Some (Some p) ->
  p < n /\ ln - p <= 6 /\
  (exists l, nth_error lines p = Some l /\
             is_story_line (lstrip l) = true /\
             startswith (lstrip l) (py "[") = false) /\
  (forall k, p < k < n ->
             exists lk, nth_error lines k = Some lk /\ passed_over lk).
Proof.
  induction n as [|prev IH]; intros p H; cbn [story_scan] in H;
    [discriminate|].
  destruct (ln - prev <=? 6) eqn:Hbud; [|discriminate].
  apply Nat.leb_le in Hbud.
  destruct (nth_error lines prev) as [l|] eqn:El; [|discriminate].
  cbn [bind] in H.
  assert (Hpass : passed_over l ->
            story_scan lines ln prev = Some (Some p) ->
            p < S prev /\ ln - p <= 6 /\
            (exists l0, nth_error lines p = Some l0 /\
                        is_story_line (lstrip l0) = true /\
                        startswith (lstrip l0) (py "[") = false) /\
            (forall k, p < k < S prev ->
                       exists lk, nth_error lines k = Some lk /\
                                  passed_over lk)).
  { intros Hl H0. apply IH in H0. destruct H0 as (Hp & Hb & Hl0 & Hk).
    split; [lia|]. split; [exact Hb|]. split; [exact Hl0|].
    intros k Hk'. destruct (Nat.eq_dec k prev) as [->|Hne].
    - exists l. split; [exact El|exact Hl].
    - apply Hk. lia. }
  destruct (lstrip l) as [|c s] eqn:Es.
  - apply Hpass; [left; exact Es|exact H].
  - destruct (startswith (c :: s) (py "[")) eqn:Hattr.
    + apply Hpass; [right; rewrite Es; exact Hattr|exact H].
    + destruct (is_story_line (c :: s)) eqn:Hstory; [|discriminate].
      injection H as <-. split; [lia|]. split; [exact Hbud|]. split.
      * exists l. rewrite Es. auto.
      * intros k Hk. lia.
Qed.

(** X5.  When the scan above a declaration on line [ln] finds a story
    comment, on line [p + 1], that line is one of the five lines directly
    above the declaration, its left-stripped text starts with "//" and
    holds "Story:", and every line between it and the declaration is blank
    or begins an attribute. *)
Theorem story_comment_found_above lines ln p :
  story_scan lines ln (ln - 1) = Some (Some p) ->
  p + 2 <= ln /\ ln <= p + 6 /\
  (exists l, nth_error lines p = Some l /\
             startswith (lstrip l) (py "//") = true /\
             contains (py "Story:") (lstrip l) = true) /\
  (forall k, p < k -> k + 2 <= ln ->
             exists lk, nth_error lines k = Some lk /\
                        (lstrip lk = [] \/
                         startswith (lstrip lk) (py "[") = true)).
Proof.
  intros H. apply story_scan_sound in H.
  destruct H as (Hp & Hb & (l & Hl & Hs & _) & Hk).
  split; [lia|]. split; [lia|]. split.
  - exists l. split; [exact Hl|]. unfold is_story_line in Hs.
    now apply andb_true_iff in Hs.
  - intros k Hk1 Hk2. apply Hk. lia.
Qed.

Lemma story_candidate_sound cfg relPath text m r :
  story_candidate U cfg relPath text m = Some r ->
  Forall (fun f => story_candidate_of text m /\
                   (story_missing_at cfg relPath text m f \/
                    story_short_at U relPath text m f)) r.
Proof.
  unfold story_candidate. intros H.
  set (ln := line_of text (m_start m)) in *.
  destruct (story_interesting text ln (group_or_empty m 4)) as [b|] eqn:Hi;
    [|discriminate].
  cbn [bind] in H. destruct b; cbn [negb] in H;
    [|injection H as <-; constructor].
  destruct (line_at text (ln - 1)) as [dl|] eqn:Hdl; [|discriminate].
  cbn [bind] in H. destruct (has_marker dl) eqn:Hmk;
    [injection H as <-; constructor|].
  assert (Hcand : story_candidate_of text m).
  { split; [exact Hi|]. exists dl. split; assumption. }
  destruct (story_scan (splitlines text) ln (ln - 1)) as [sidx|] eqn:Hscan;
    [|discriminate].
  cbn [bind] in H. unfold story_verdict in H. destruct sidx as [p|].
  - destruct (nth_error (splitlines text) p) as [l|] eqn:Hl; [|discriminate].
    cbn [bind] in H. destruct (story_after U l) as [after|] eqn:Ha;
      [|injection H as <-; constructor].
    destruct (length after <? 20) eqn:Hlen;
      injection H as <-; constructor; [|constructor].
    split; [exact Hcand|]. right. exists p, l, after.
    apply Nat.ltb_lt in Hlen. auto 6.
  - destruct (ExemptEditorNullChecks cfg && in_editor relPath) eqn:He;
      injection H as <-; constructor; [|constructor].
    split; [exact Hcand|]. left. repeat split; assumption.
Qed.

(** X6.  The story rule ends without an exception, and each of its
    findings is for a match of the declaration pattern that is a candidate
    (a marker token in the rest of its line or in the three lines from its
    own on) with no suppression marker on its line.  The finding either
    reports a missing comment, at the line and column of the match, when
    the scan above found none and the file is not exempt as an Editor file;
    or it reports a comment that is too short, at the line of the comment
    that the scan found, when fewer than 20 characters follow the marker. *)
Theorem story_findings_sound cfg relPath text :
  exists fs,
    StoryComments_loop U cfg relPath text = Some fs /\
    Forall (fun f => exists m,
              In m (finditer U public_type_pattern text) /\
              story_candidate_of text m /\
              (story_missing_at cfg relPath text m f \/
               story_short_at U relPath text m f)) fs.
Proof.
  destruct (StoryComments_loop_valid U cfg relPath text) as (fs & Hfs & _).
  exists fs. split; [exact Hfs|].
  exact (for_each_Forall_in _ _ _
           (fun m r _ => story_candidate_sound cfg relPath text m r) fs Hfs).
Qed.

(* ================================================================= *)
(** ** Tags and toggles *)

Lemma rule_of_tag_Null cfg relPath :
  rule_of_tag cfg relPath "Null" =
  CheckNulls_on cfg && negb (ExemptEditorNullChecks cfg && in_editor relPath).
Proof. reflexivity. Qed.

Lemma rule_of_tag_Story cfg relPath :
  rule_of_tag cfg relPath "Story" =
  CheckBurstRef_on cfg && CheckStoryComments_on cfg.
Proof. reflexivity. Qed.

(** X7.  Every finding of the scan of a file carries the path of the file
    and the tag of a rule that the settings let run: a rule whose toggle is
    off reports nothing, the null rule reports nothing for an exempt Editor
    file, and a story finding needs the [CheckBurstRef] toggle as well as
    its own. *)
Theorem findings_from_enabled_rules cfg relPath text :
  exists fs,
    scan_text U cfg relPath text = Some fs /\
    Forall (from_enabled_rule cfg relPath) fs.
Proof.
  destruct (scan_text_valid U cfg relPath text) as (fs & Hfs & _).
  exists fs. split; [exact Hfs|]. unfold scan_text in Hfs.
  destruct (null_findings_not_suppressed cfg relPath text)
    as ((r2 & H2 & P2) & (r4 & H4 & P4)).
  rewrite H2, H4 in Hfs. cbn [bind] in Hfs.
  destruct (CheckBurstRef U cfg relPath text) as [r5|] eqn:H5;
    [|discriminate].
  cbn [bind] in Hfs. injection Hfs as <-.
  repeat (apply Forall_app; split).
  - unfold CheckNativeArray.
    destruct (CheckNativeArray_on cfg) eqn:Hon; [|constructor].
    destruct (search U pat_NativeArray text); [|constructor].
    apply Forall_forall. intros f Hf. apply in_map_iff in Hf.
    destruct Hf as (m & <- & _). split; [reflexivity|exact Hon].
  - revert P2. apply Forall_impl.
    intros f (m & l & _ & -> & _ & _ & Hon & He).
    split; [reflexivity|]. rewrite rule_of_tag_Null, Hon, He. reflexivity.
  - unfold CheckSealedClasses.
    destruct (CheckSealedClasses_on cfg) eqn:Hon; [|constructor].
    apply Forall_forall. intros f Hf. apply in_flat_map in Hf.
    destruct Hf as (m & _ & Hf). unfold Class_hit in Hf.
    destruct (negb (truthy (group m 3)) && negb (truthy (group m 4)));
      [|destruct Hf].
    destruct Hf as [<-|[]]. split; [reflexivity|exact Hon].
  - revert P4. apply Forall_impl.
    intros f (m & l & _ & -> & _ & _ & Hon).
    split; [reflexivity|exact Hon].
  - unfold CheckBurstRef in H5.
    destruct (CheckBurstRef_on cfg) eqn:Hon;
      [|injection H5 as <-; constructor].
    destruct (burst_findings_sound relPath text) as (b & Hb & Pb).
    rewrite Hb in H5. cbn [bind] in H5.
    destruct (CheckStoryComments_on cfg) eqn:Hst.
    + destruct (story_findings_sound cfg relPath text) as (st & Hs & Ps).
      rewrite Hs in H5. cbn [bind] in H5. injection H5 as <-.
      apply Forall_app. split.
      * revert Pb. apply Forall_impl.
        intros f (i & j & li & lj & _ & _ & _ & _ & _ & _ & _ & ->).
        split; [reflexivity|exact Hon].
      * revert Ps. apply Forall_impl.
        intros f (m & _ & _ & [(-> & _)|(p & l & after & -> & _)]);
          (split; [reflexivity|]); rewrite rule_of_tag_Story, Hon, Hst;
          reflexivity.
    + cbn [bind] in H5. injection H5 as <-. rewrite app_nil_r.
      revert Pb. apply Forall_impl.
      intros f (i & j & li & lj & _ & _ & _ & _ & _ & _ & _ & ->).
      split; [reflexivity|exact Hon].
Qed.

(* ================================================================= *)
(** ** Patterns anchored at the start of a line *)

Lemma firstn_snoc {A} (x : A) : forall l i,
  nth_error l i = Some x -> firstn (S i) l = firstn i l ++ [x].
Proof.
  induction l as [|y l IH]; intros i H; [destruct i; discriminate|].
  destruct i as [|i]; simpl in H.
  - injection H as ->. reflexivity.
  - cbn [firstn app]. f_equal. now apply IH.
Qed.

Lemma col_of_at_bol text idx :
  idx <= length text ->
  at_bol (char_before text idx) = true ->
  col_of text idx = 1%Z.
Proof.
  intros Hlen Hbol. unfold col_of. destruct idx as [|i]; [reflexivity|].
  cbn [char_before] in Hbol.
  destruct (nth_error text i) as [c|] eqn:Ec.
  - simpl in Hbol. apply N.eqb_eq in Hbol. subst c.
    rewrite (firstn_snoc LF text i Ec), rfind_chr_app.
    rewrite length_firstn, Nat.min_l by lia. cbn [rfind_chr].
    replace (N.eqb LF LF) with true by reflexivity. lia.
  - apply nth_error_None in Ec. lia.
Qed.

Lemma match_here_Class_bol prev s res :
  match_here U pat_Class prev s = Some res -> at_bol prev = true.
Proof.
  unfold match_here, pat_Class. cbn [cat rmatch].
  destruct (at_bol prev); [reflexivity|discriminate].
Qed.

Lemma match_here_public_type_bol prev s res :
  match_here U public_type_pattern prev s = Some res -> at_bol prev = true.
Proof.
  unfold match_here, public_type_pattern. cbn [cat rmatch].
  destruct (at_bol prev); [reflexivity|discriminate].
Qed.

(** X8.  A match of the class pattern or of the declaration pattern of the
    story rule starts at the beginning of the text or just after a
    newline, so its column is 1: the fixed column of a class finding is the
    column of the match, and the column that the story rule computes for a
    missing comment is always 1. *)
Theorem anchored_match_column text m :
  In m (finditer U pat_Class text) \/
  In m (finditer U public_type_pattern text) ->
  at_bol (char_before text (m_start m)) = true /\
  col_of text (m_start m) = 1%Z.
Proof.
  intros H.
  assert (Hbol : at_bol (char_before text (m_start m)) = true).
  { destruct H as [H|H]; apply finditer_sound in H; destruct H as [e H].
    - exact (match_here_Class_bol _ _ _ H).
    - exact (match_here_public_type_bol _ _ _ H). }
  split; [exact Hbol|]. apply col_of_at_bol; [|exact Hbol].
  destruct H as [H|H].
  - pose proof (finditer_start_lt U _ _ _ (needs_text_Class U) H). lia.
  - pose proof (finditer_start_lt U _ _ _ (needs_text_public_type U) H). lia.
Qed.

(* ================================================================= *)
(** ** Ignored directories *)

Lemma split_slash_cons s : exists seg rest, split_slash s = seg :: rest.
Proof.
  destruct s as [|c s]; simpl; [eauto|].
  destruct (N.eqb c SL); [eauto|].
  destruct (split_slash s); eauto.
Qed.

(** The first part of a path is the token. *)
Lemma startswith_first_segment : forall tok rel,
  no_slash tok = true ->
  startswith (rel ++ [SL]) (tok ++ [SL]) = true <->
  hd [] (split_slash rel) = tok.
Proof.
  induction tok as [|a tok IH]; intros rel Htok.
  - destruct rel as [|c rel]; cbn [app startswith split_slash hd].
    + split; reflexivity.
    + rewrite startswith_nil, andb_true_r, N.eqb_sym.
      destruct (N.eqb c SL) eqn:Ec; [split; reflexivity|].
      destruct (split_slash_cons rel) as (seg & rest & ->). cbn [hd].
      split; discriminate.
  - unfold no_slash in Htok. cbn [forallb] in Htok.
    apply andb_true_iff in Htok. destruct Htok as [Ha Htok].
    apply negb_true_iff in Ha.
    destruct rel as [|c rel]; cbn [app startswith split_slash hd].
    + rewrite Ha. cbn [andb]. split; discriminate.
    + destruct (N.eqb c SL) eqn:Ec.
      * apply N.eqb_eq in Ec. subst c. rewrite Ha. cbn [andb hd].
        split; discriminate.
      * destruct (split_slash_cons rel) as (seg & rest & E).
        specialize (IH rel Htok). rewrite E in *. cbn [hd] in *.
        destruct (N.eqb_spec a c) as [->|Hne]; cbn [andb].
        { rewrite IH. split; [intros ->; reflexivity|].
          intros H. now injection H. }
        { split; [discriminate|]. intros H. injection H as H _.
          congruence. }
Qed.

(** A later part of a path is the token. *)
Lemma contains_later_segment tok : no_slash tok = true -> forall rel,
  contains (SL :: tok ++ [SL]) (rel ++ [SL]) = true <->
  In tok (tl (split_slash rel)).
Proof.
  intros Htok. induction rel as [|c rel IH].
  - cbn [app contains startswith split_slash tl].
    replace (N.eqb SL SL) with true by reflexivity.
    destruct tok; cbn [app startswith andb orb]; split;
      (discriminate || intros []).
  - cbn [app contains startswith split_slash].
    rewrite orb_true_iff, andb_true_iff, IH.
    destruct (split_slash_cons rel) as (seg & rest & E).
    pose proof (startswith_first_segment tok rel Htok) as Hfirst.
    rewrite E in *. cbn [hd tl] in *.
    destruct (N.eqb c SL) eqn:Ec.
    + apply N.eqb_eq in Ec. subst c.
      replace (N.eqb SL SL) with true by reflexivity.
      cbn [tl]. rewrite Hfirst. split.
      * intros [[_ ->]|H]; [now left|now right].
      * intros [->|H]; [left; split; reflexivity|now right].
    + rewrite N.eqb_sym, Ec. cbn [tl]. split.
      * intros [[H _]|H]; [discriminate|exact H].
      * intros H. now right.
Qed.

Lemma contains_segment tok rel :
  no_slash tok = true ->
  contains (py "/" ++ tok ++ py "/") (py "/" ++ rel ++ py "/") = true <->
  In tok (split_slash rel).
Proof.
  intros Htok.
  change (py "/" ++ tok ++ py "/") with (SL :: tok ++ [SL]).
  change (py "/" ++ rel ++ py "/") with ((SL :: rel) ++ [SL]).
  rewrite (contains_later_segment tok Htok (SL :: rel)).
  reflexivity.
Qed.

(** X9.  When no ignored token has a slash in it, a directory is skipped
    exactly when one of the parts of its path, split at the slashes, is an
    ignored token that is not the empty string: a token matches a whole
    part, never a piece of one. *)
Theorem skipped_directory_has_ignored_part cfg rel :
  forallb no_slash (IgnoreFolderTokens cfg) = true ->
  dir_skipped cfg rel = true <->
  exists tok, In tok (IgnoreFolderTokens cfg) /\ tok <> [] /\
              In tok (split_slash rel).
Proof.
  intros Hno. unfold dir_skipped. rewrite existsb_exists.
  rewrite forallb_forall in Hno. split.
  - intros (tok & Hin & H). exists tok. split; [exact Hin|].
    destruct tok as [|c tok]; [discriminate|]. split; [discriminate|].
    apply contains_segment; [now apply Hno|exact H].
  - intros (tok & Hin & Hne & Hseg). exists tok. split; [exact Hin|].
    destruct tok as [|c tok]; [congruence|].
    apply contains_segment; [now apply Hno|exact Hseg].
Qed.

(* ================================================================= *)
(** ** The walk *)

(** X10.  The walk never ends with an exception, and the results of a walk
    in two parts are the results of the first part followed by those of
    the second: a directory adds its findings after those of the
    directories before it and changes none of them. *)
Theorem walk_results_concatenate cfg w1 w2 :
  exists r1 r2,
    scan_tree U cfg w1 = Some r1 /\
    scan_tree U cfg w2 = Some r2 /\
    scan_tree U cfg (w1 ++ w2) = Some (r1 ++ r2).
Proof.
  destruct (scan_tree_total U cfg w1) as [r1 H1].
  destruct (scan_tree_total U cfg w2) as [r2 H2].
  exists r1, r2. split; [exact H1|]. split; [exact H2|].
  unfold scan_tree in *. rewrite for_each_app, H1, H2. reflexivity.
Qed.

Lemma scan_file_sound cfg rel f r :
  scan_file U cfg rel f = Some r ->
  Forall (fun x =>
            is_scanned U rel (fst f) = true /\
            match snd f with
            | ReadFails e => x = ReadError (rel_path rel (fst f)) e
            | ReadOk text =>
                valid_line text x /\
                from_enabled_rule cfg (rel_path rel (fst f)) x
            end) r.
Proof.
  destruct f as [fn data]. unfold scan_file, is_scanned. cbn [fst snd].
  destruct (endswith (lower U fn) (py ".cs")); cbn [negb andb];
    [|intros H; injection H as <-; constructor].
  destruct (contains (py "Assets/Editor/CopilotRules") (rel_path rel fn));
    cbn [negb]; [intros H; injection H as <-; constructor|].
  destruct data as [text|e]; intros H.
  - destruct (scan_text_valid U cfg (rel_path rel fn) text) as (a & Ha & Va).
    destruct (findings_from_enabled_rules cfg (rel_path rel fn) text)
      as (b & Hb & Eb).
    rewrite H in Ha, Hb. injection Ha as <-. injection Hb as <-.
    apply Forall_forall. intros x Hx. rewrite Forall_forall in Va, Eb.
    split; [reflexivity|]. split; auto.
  - injection H as <-. constructor; [|constructor]. split; reflexivity.
Qed.

(** X11.  Every entry of the results of a walk belongs to a file that the
    walk reads: a file with the extension ".cs" (in any case), outside the
    scanner's own rules, in a directory that is not skipped.  For a file
    that cannot be read the entry is its Error entry; for a file that can,
    it is a finding with the path of the file, a line number within the
    file, and the tag of a rule that the settings let run. *)
Theorem walk_findings_belong_to_read_files cfg walk :
  exists rs,
    scan_tree U cfg walk = Some rs /\
    Forall (fun x => exists rel files fn data,
              In (rel, files) walk /\ In (fn, data) files /\
              dir_skipped cfg rel = false /\
              is_scanned U rel fn = true /\
              match data with
              | ReadFails e => x = ReadError (rel_path rel fn) e
              | ReadOk text =>
                  valid_line text x /\
                  from_enabled_rule cfg (rel_path rel fn) x
              end) rs.
Proof.
  destruct (scan_tree_total U cfg walk) as [rs Hrs].
  exists rs. split; [exact Hrs|]. unfold scan_tree in Hrs.
  assert (Hdir : forall d r, In d walk -> scan_dir U cfg d = Some r ->
            Forall (fun x => exists fn data,
                      In (fn, data) (snd d) /\
                      dir_skipped cfg (fst d) = false /\
                      is_scanned U (fst d) fn = true /\
                      match data with
                      | ReadFails e => x = ReadError (rel_path (fst d) fn) e
                      | ReadOk text =>
                          valid_line text x /\
                          from_enabled_rule cfg (rel_path (fst d) fn) x
                      end) r).
  { intros [rel files] r _ Hr. unfold scan_dir in Hr. cbn [fst snd].
    destruct (dir_skipped cfg rel) eqn:Hskip;
      [injection Hr as <-; constructor|].
    pose proof (for_each_Forall_in _ _ _
                  (fun f r' _ => scan_file_sound cfg rel f r') r Hr) as H.
    revert H. apply Forall_impl. intros x ([fn data] & Hin & Hs & Hd).
    cbn [fst snd] in *. exists fn, data. auto. }
  pose proof (for_each_Forall_in _ _ _ Hdir rs Hrs) as H.
  revert H. apply Forall_impl.
  intros x ([rel files] & Hin & fn & data & Hf & Hskip & Hs & Hd).
  cbn [fst snd] in *. exists rel, files, fn, data. auto 6.
Qed.

(* ================================================================= *)
(** ** Which matches [finditer] returns *)

(** A match at an offset that no earlier match reaches is returned. *)
Lemma finditer_from_complete r : forall s prev idx skip k e g,
  k <= length s -> skip <= k ->
  match_here U r (match k with O => prev | S k' => nth_error s k' end)
             (skipn k s) = Some (e, g) ->
  (forall j ej gj, j < k ->
     match_here U r (match j with O => prev | S j' => nth_error s j' end)
                (skipn j s) = Some (ej, gj) ->
     j + (length (skipn j s) - length ej) <= k) ->
  In {| m_start := idx + k; m_caps := g |} (finditer_from U r prev s idx skip).
Proof.
  induction s as [|c s IH]; intros prev idx skip k e g Hk Hskip Hm Hfree.
  - simpl in Hk. assert (k = 0) by lia. subst k.
    assert (skip = 0) by lia. subst skip.
    cbn [finditer_from]. cbn [skipn] in Hm. rewrite Hm.
    left. now rewrite Nat.add_0_r.
  - destruct k as [|k].
    + assert (skip = 0) by lia. subst skip.
      cbn [finditer_from]. cbn [skipn] in Hm. rewrite Hm.
      left. now rewrite Nat.add_0_r.
    + assert (Hrec : forall skip', skip' <= k ->
                In {| m_start := idx + S k; m_caps := g |}
                   (finditer_from U r (Some c) s (S idx) skip')).
      { intros skip' Hs. replace (idx + S k) with (S idx + k) by lia.
        apply (IH (Some c) (S idx) skip' k e g); [simpl in Hk; lia|exact Hs| |].
        - destruct k; exact Hm.
        - intros j ej gj Hj Hmj.
          specialize (Hfree (S j) ej gj ltac:(lia)).
          cbn [skipn] in Hfree.
          assert (S j + (length (skipn j s) - length ej) <= S k).
          { apply Hfree. destruct j; exact Hmj. }
          lia. }
      destruct skip as [|skip]; cbn [finditer_from].
      * destruct (match_here U r prev (c :: s)) as [[e0 g0]|] eqn:E0.
        { right. apply Hrec.
          specialize (Hfree 0 e0 g0 ltac:(lia) E0). cbn [skipn] in Hfree.
          lia. }
        { apply Hrec. lia. }
      * apply Hrec. lia.
Qed.

Lemma finditer_complete r text idx e g :
  idx <= length text ->
  match_here U r (char_before text idx) (skipn idx text) = Some (e, g) ->
  (forall j ej gj, j < idx ->
     match_here U r (char_before text j) (skipn j text) = Some (ej, gj) ->
     j + (length (skipn j text) - length ej) <= idx) ->
  In {| m_start := idx; m_caps := g |} (finditer U r text).
Proof.
  intros Hidx Hm Hfree.
  exact (finditer_from_complete r text None 0 0 idx e g Hidx (Nat.le_0_l _)
           Hm Hfree).
Qed.

(** Where the pattern has a match, the search finds one. *)
Lemma finditer_from_nonempty r : forall s prev idx k e g,
  k <= length s ->
  match_here U r (match k with O => prev | S k' => nth_error s k' end)
             (skipn k s) = Some (e, g) ->
  finditer_from U r prev s idx 0 <> [].
Proof.
  induction s as [|c s IH]; intros prev idx k e g Hk Hm.
  - simpl in Hk. assert (k = 0) by lia. subst k.
    cbn [finditer_from]. cbn [skipn] in Hm. rewrite Hm. discriminate.
  - cbn [finditer_from].
    destruct (match_here U r prev (c :: s)) as [[e0 g0]|] eqn:E0;
      [discriminate|].
    destruct k as [|k]; [cbn [skipn] in Hm; congruence|].
    apply (IH (Some c) (S idx) k e g); [simpl in Hk; lia|].
    destruct k; exact Hm.
Qed.

Lemma finditer_from_le r : forall s prev idx skip m,
  In m (finditer_from U r prev s idx skip) -> m_start m <= idx + length s.
Proof.
  induction s as [|c s IH]; intros prev idx skip m Hin.
  - destruct skip; cbn [finditer_from] in Hin; [|destruct Hin].
    destruct (match_here U r prev []) as [[e g]|]; [|destruct Hin].
    destruct Hin as [<-|[]]. simpl. lia.
  - destruct skip as [|k0]; cbn [finditer_from] in Hin.
    + destruct (match_here U r prev (c :: s)) as [[e g]|].
      * destruct Hin as [<-|Hin]; [simpl; lia|].
        apply IH in Hin. simpl. lia.
      * apply IH in Hin. simpl. lia.
    + apply IH in Hin. simpl. lia.
Qed.

Lemma search_iff r text :
  search U r text = true <->
  exists idx e g,
    idx <= length text /\
    match_here U r (char_before text idx) (skipn idx text) = Some (e, g).
Proof.
  unfold search. split.
  - destruct (finditer U r text) as [|m ms] eqn:E; [discriminate|].
    intros _. assert (Hin : In m (finditer U r text)) by (rewrite E; now left).
    pose proof (finditer_from_le _ _ _ _ _ _ Hin) as Hle. simpl in Hle.
    apply finditer_sound in Hin. destruct Hin as (e & Hm).
    exists (m_start m), e, (m_caps m). split; [exact Hle|exact Hm].
  - intros (idx & e & g & Hidx & Hm).
    pose proof (finditer_from_nonempty r text None 0 idx e g Hidx Hm) as H.
    fold (finditer U r text) in H.
    destruct (finditer U r text); [congruence|reflexivity].
Qed.

(* ================================================================= *)
(** ** The array pattern and the attribute pattern, read as text *)

Lemma lit_iff : forall w prev s p' s',
  lit w prev s = Some (p', s') <->
  s = w ++ s' /\ p' = fold_left (fun _ c => Some c) w prev.
Proof.
  induction w as [|a w IH]; intros prev s p' s'.
  - cbn [lit app fold_left]. split.
    + intros H. injection H as <- <-. auto.
    + intros [-> ->]. reflexivity.
  - destruct s as [|c s]; cbn [lit app fold_left].
    + split; [discriminate|]. intros [H _]. discriminate.
    + destruct (N.eqb_spec a c) as [->|Hne].
      * rewrite IH. split.
        { intros [-> ->]. auto. }
        { intros [H ->]. injection H as ->. auto. }
      * split; [discriminate|]. intros [H _]. congruence.
Qed.

Lemma star_inv (p : N -> bool) (k : cont) g : forall s prev res,
  star p prev s g k = Some res ->
  exists ws s' prev',
    s = ws ++ s' /\ forallb p ws = true /\ k prev' s' g = Some res.
Proof.
  induction s as [|c s IH]; intros prev res H; cbn [star] in H.
  - exists [], [], prev. auto.
  - destruct (p c) eqn:Hc.
    + destruct (star p (Some c) s g k) as [r0|] eqn:E.
      * injection H as <-. apply IH in E.
        destruct E as (ws & s' & prev' & -> & Hws & Hk).
        exists (c :: ws), s', prev'. cbn [app forallb]. rewrite Hc. auto.
      * exists [], (c :: s), prev. auto.
    + exists [], (c :: s), prev. auto.
Qed.

Lemma star_greedy (p : N -> bool) (k : cont) g res s' :
  (forall pv, k pv s' g = Some res) ->
  match s' with c :: _ => p c = false | [] => True end ->
  forall ws prev, forallb p ws = true ->
  star p prev (ws ++ s') g k = Some res.
Proof.
  intros Hk Hstop. induction ws as [|c ws IH]; intros prev Hws.
  - cbn [app]. destruct s' as [|c s']; cbn [star]; [apply Hk|].
    rewrite Hstop. apply Hk.
  - cbn [forallb] in Hws. apply andb_true_iff in Hws.
    destruct Hws as [Hc Hws]. cbn [app star]. rewrite Hc.
    now rewrite (IH (Some c) Hws).
Qed.

Lemma match_here_NativeArray_iff prev s e g :
  match_here U pat_NativeArray prev s = Some (e, g) <->
  g = [] /\ is_word_opt U prev = false /\
  exists ws, forallb isspace ws = true /\
             s = py "NativeArray" ++ ws ++ py "<" ++ e.
Proof.
  unfold match_here, pat_NativeArray. cbn [cat rmatch]. split.
  - destruct (at_word_boundary U prev s) eqn:Hb; [|discriminate].
    destruct (lit (py "NativeArray") prev s) as [[p1 s1]|] eqn:E1;
      [|discriminate].
    intros H. apply star_inv in H.
    destruct H as (ws & s2 & p2 & -> & Hws & H).
    destruct (lit (py "<") p2 s2) as [[p3 s3]|] eqn:E3; [|discriminate].
    injection H as <- <-.
    apply lit_iff in E1. destruct E1 as [-> _].
    apply lit_iff in E3. destruct E3 as [-> _].
    split; [reflexivity|]. split; [|exists ws; auto].
    unfold at_word_boundary in Hb. cbn in Hb.
    destruct (is_word_opt U prev); [discriminate|reflexivity].
  - intros (-> & Hprev & ws & Hws & ->).
    unfold at_word_boundary. rewrite Hprev. cbn [app py].
    replace (xorb false _) with true by reflexivity.
    pose proof (proj2 (lit_iff (py "NativeArray") prev
                         (py "NativeArray" ++ ws ++ py "<" ++ e) _
                         (ws ++ py "<" ++ e)) (conj eq_refl eq_refl)) as E1.
    rewrite E1.
    apply star_greedy; [|reflexivity|exact Hws].
    intros pv. cbn. reflexivity.
Qed.

(** Inside an occurrence of the array pattern, past its first character,
    there is no "N". *)
Lemma NativeArray_inside ws e d x :
  forallb isspace ws = true ->
  1 <= d < 12 + length ws ->
  nth_error (py "NativeArray" ++ ws ++ py "<" ++ e) d = Some x ->
  x <> 78%N.
Proof.
  intros Hws Hd H.
  change (py "NativeArray") with [78; 97; 116; 105; 118; 101; 65; 114; 114;
                                  97; 121]%N in H.
  change (py "<") with [60%N] in H.
  destruct d as [|d]; [lia|].
  do 10 (destruct d as [|d];
         [cbn in H; injection H as <-; discriminate|]).
  cbn [app nth_error] in H.
  destruct (Nat.lt_ge_cases d (length ws)) as [Hlt|Hge].
  - rewrite nth_error_app1 in H by exact Hlt.
    apply nth_error_In in H. rewrite forallb_forall in Hws.
    specialize (Hws x H). intros ->. discriminate.
  - rewrite nth_error_app2 in H by exact Hge.
    replace (d - length ws) with 0 in H by lia.
    cbn in H. injection H as <-. discriminate.
Qed.

(** X13.  The array rule reports exactly the occurrences of its pattern:
    there is a finding at a line and column exactly when the rule is on and
    the line and column are those computed for a position of the text at
    which "NativeArray" stands, followed by whitespace, if any, and "<",
    the character before the position, if there is one, not being a word
    character.  No occurrence is missed and nothing else is reported. *)
Theorem native_array_findings_are_occurrences cfg relPath text ln col :
  In (Located "NativeArray" relPath ln col msg_NativeArray)
     (CheckNativeArray U cfg relPath text) <->
  CheckNativeArray_on cfg = true /\
  exists idx ws rest,
    ln = line_of text idx /\ col = col_of text idx /\
    skipn idx text = py "NativeArray" ++ ws ++ py "<" ++ rest /\
    forallb isspace ws = true /\
    is_word_opt U (char_before text idx) = false.
Proof.
  unfold CheckNativeArray. split.
  - destruct (CheckNativeArray_on cfg); [|intros []].
    destruct (search U pat_NativeArray text); [|intros []].
    cbn [andb]. intros H. apply in_map_iff in H.
    destruct H as (m & Hf & Hm). unfold NativeArray_hit in Hf.
    injection Hf as <- <-.
    apply finditer_sound in Hm. destruct Hm as (e & Hm).
    apply match_here_NativeArray_iff in Hm.
    destruct Hm as (_ & Hprev & ws & Hws & Hs).
    split; [reflexivity|]. exists (m_start m), ws, e. auto.
  - intros (Hon & idx & ws & rest & -> & -> & Hs & Hws & Hprev).
    rewrite Hon. cbn [andb].
    assert (Hat : nth_error text idx = Some 78%N)
      by (rewrite <- hd_error_skipn, Hs; reflexivity).
    assert (Hidx : idx < length text)
      by (apply nth_error_Some; rewrite Hat; discriminate).
    assert (Hin : In {| m_start := idx; m_caps := [] |}
                     (finditer U pat_NativeArray text)).
    { apply (finditer_complete pat_NativeArray text idx rest []); [lia| |].
      - apply match_here_NativeArray_iff. split; [reflexivity|].
        split; [exact Hprev|]. exists ws. auto.
      - intros j ej gj Hj Hm. apply match_here_NativeArray_iff in Hm.
        destruct Hm as (_ & _ & wsj & Hwsj & Hsj).
        rewrite Hsj, !length_app.
        change (length (py "NativeArray")) with 11.
        change (length (py "<")) with 1.
        destruct (Nat.le_gt_cases (j + 12 + length wsj) idx) as [Hle|Hgt];
          [lia|].
        exfalso.
        assert (Hd : nth_error (skipn j text) (idx - j) = Some 78%N).
        { rewrite nth_error_skipn. replace (j + (idx - j)) with idx by lia.
          exact Hat. }
        rewrite Hsj in Hd.
        apply (NativeArray_inside wsj ej (idx - j) 78%N Hwsj); [lia|exact Hd|].
        reflexivity. }
    assert (Hsearch : search U pat_NativeArray text = true).
    { unfold search. destruct (finditer U pat_NativeArray text);
        [destruct Hin|reflexivity]. }
    rewrite Hsearch.
    apply in_map_iff. exists {| m_start := idx; m_caps := [] |}.
    split; [reflexivity|exact Hin].
Qed.

Lemma match_here_Burst_iff prev s e g :
  match_here U pat_Burst prev s = Some (e, g) <->
  g = [] /\ s = py "[BurstCompile" ++ e /\
  is_word_opt U (hd_error e) = false.
Proof.
  unfold match_here, pat_Burst. cbn [cat rmatch]. split.
  - destruct (lit (py "[BurstCompile") prev s) as [[p1 s1]|] eqn:E1;
      [|discriminate].
    apply lit_iff in E1. destruct E1 as [-> ->].
    unfold at_word_boundary. cbn [fold_left py map list_ascii_of_string].
    cbn [is_word_opt].
    replace (is_word U (N_of_ascii "e")) with true by reflexivity.
    destruct (is_word_opt U (hd_error s1)) eqn:Hw; cbn [xorb];
      [discriminate|].
    intros H. injection H as <- <-. auto.
  - intros (-> & -> & Hw).
    pose proof (proj2 (lit_iff (py "[BurstCompile") prev
                         (py "[BurstCompile" ++ e) _ e)
                      (conj eq_refl eq_refl)) as E1.
    rewrite E1. unfold at_word_boundary. rewrite Hw.
    cbn [fold_left py map list_ascii_of_string is_word_opt].
    replace (is_word U (N_of_ascii "e")) with true by reflexivity.
    reflexivity.
Qed.

(** X14.  A line starts a window of the Burst rule exactly when it holds
    "[BurstCompile" followed by the end of the line or by a character that
    is not a word character: "[BurstCompile]" and "[BurstCompile(" start
    one, "[BurstCompiled]" does not. *)
Theorem burst_trigger_line l :
  search U pat_Burst l = true <->
  exists a b, l = a ++ py "[BurstCompile" ++ b /\
              is_word_opt U (hd_error b) = false.
Proof.
  rewrite search_iff. split.
  - intros (idx & e & g & Hidx & Hm). apply match_here_Burst_iff in Hm.
    destruct Hm as (_ & Hs & Hw).
    exists (firstn idx l), e. split; [|exact Hw].
    rewrite <- Hs. symmetry. apply firstn_skipn.
  - intros (a & b & -> & Hw).
    exists (length a), b, []. split; [rewrite length_app; lia|].
    rewrite skipn_app, skipn_all, Nat.sub_diag. cbn [skipn app].
    apply match_here_Burst_iff. auto.
Qed.

(* ================================================================= *)
(** ** The Entity.Null rule, read as text *)

Lemma match_here_EntityNull_iff prev s e g :
  match_here U pat_EntityNull prev s = Some (e, g) <->
  g = [] /\ is_word_opt U prev = false /\
  s = py "Entity.Null" ++ e /\ is_word_opt U (hd_error e) = false.
Proof.
  unfold match_here, pat_EntityNull. cbn [cat rmatch]. split.
  - destruct (at_word_boundary U prev s) eqn:Hb; [|discriminate].
    destruct (lit (py "Entity.Null") prev s) as [[p1 s1]|] eqn:E1;
      [|discriminate].
    apply lit_iff in E1. destruct E1 as [-> ->].
    unfold at_word_boundary in *.
    cbn [fold_left py map list_ascii_of_string is_word_opt].
    replace (is_word U (N_of_ascii "l")) with true by reflexivity.
    cbn in Hb.
    destruct (is_word_opt U (hd_error s1)) eqn:Hw; cbn [xorb];
      [discriminate|].
    intros H. injection H as <- <-.
    destruct (is_word_opt U prev); [discriminate|auto].
  - intros (-> & Hprev & -> & Hw).
    unfold at_word_boundary at 1. rewrite Hprev. cbn [app py].
    replace (xorb false _) with true by reflexivity.
    pose proof (proj2 (lit_iff (py "Entity.Null") prev
                         (py "Entity.Null" ++ e) _ e)
                      (conj eq_refl eq_refl)) as E1.
    rewrite E1. unfold at_word_boundary. rewrite Hw.
    cbn [fold_left py map list_ascii_of_string is_word_opt].
    replace (is_word U (N_of_ascii "l")) with true by reflexivity.
    reflexivity.
Qed.

Lemma EntityNull_inside e d x :
  1 <= d < 11 ->
  nth_error (py "Entity.Null" ++ e) d = Some x ->
  x <> 69%N.
Proof.
  intros Hd H.
  change (py "Entity.Null") with [69; 110; 116; 105; 116; 121; 46; 78; 117;
                                  108; 108]%N in H.
  destruct d as [|d]; [lia|].
  do 10 (destruct d as [|d];
         [cbn in H; injection H as <-; discriminate|]).
  lia.
Qed.

(** X15.  The Entity.Null rule reports exactly the occurrences of its
    pattern on lines without a suppression marker: there is a finding at a
    line exactly when the rule is on and the line is the one computed for
    a position at which "Entity.Null" stands with no word character just
    before or just after it, the line fetched from [text.splitlines()]
    for that line number holding no marker. *)
Theorem entity_null_findings_are_occurrences cfg relPath text :
  exists fs,
    CheckEntityNull U cfg relPath text = Some fs /\
    forall ln,
      In (Located "Entity.Null" relPath ln 1 msg_EntityNull) fs <->
      CheckEntityNull_on cfg = true /\
      exists idx rest l,
        ln = line_of text idx /\
        skipn idx text = py "Entity.Null" ++ rest /\
        is_word_opt U (char_before text idx) = false /\
        is_word_opt U (hd_error rest) = false /\
        line_at text (ln - 1) = Some l /\
        has_marker l = false.
Proof.
  destruct (null_findings_not_suppressed cfg relPath text)
    as (_ & fs & Hfs & Pfs).
  exists fs. split; [exact Hfs|]. intros ln. split.
  - intros Hin. rewrite Forall_forall in Pfs.
    destruct (Pfs _ Hin) as (m & l & Hm & Hf & Hl & Hmk & Hon).
    injection Hf as ->. split; [exact Hon|].
    apply finditer_sound in Hm. destruct Hm as (e & Hm).
    apply match_here_EntityNull_iff in Hm.
    destruct Hm as (_ & Hprev & Hs & Hw).
    exists (m_start m), e, l. auto 7.
  - intros (Hon & idx & rest & l & -> & Hs & Hprev & Hw & Hl & Hmk).
    assert (Hat : nth_error text idx = Some 69%N)
      by (rewrite <- hd_error_skipn, Hs; reflexivity).
    assert (Hidx : idx < length text)
      by (apply nth_error_Some; rewrite Hat; discriminate).
    assert (Hin : In {| m_start := idx; m_caps := [] |}
                     (finditer U pat_EntityNull text)).
    { apply (finditer_complete pat_EntityNull text idx rest []); [lia| |].
      - apply match_here_EntityNull_iff. auto.
      - intros j ej gj Hj Hm. apply match_here_EntityNull_iff in Hm.
        destruct Hm as (_ & _ & Hsj & _).
        rewrite Hsj, !length_app.
        change (length (py "Entity.Null")) with 11.
        destruct (Nat.le_gt_cases (j + 11) idx) as [Hle|Hgt]; [lia|].
        exfalso.
        assert (Hd : nth_error (skipn j text) (idx - j) = Some 69%N).
        { rewrite nth_error_skipn. replace (j + (idx - j)) with idx by lia.
          exact Hat. }
        rewrite Hsj in Hd.
        apply (EntityNull_inside ej (idx - j) 69%N); [lia|exact Hd|].
        reflexivity. }
    unfold CheckEntityNull in Hfs. rewrite Hon in Hfs. cbn [andb] in Hfs.
    assert (Hsearch : search U pat_EntityNull text = true).
    { unfold search. destruct (finditer U pat_EntityNull text);
        [destruct Hin|reflexivity]. }
    rewrite Hsearch in Hfs.
    eapply for_each_In; [exact Hfs|exact Hin| |].
    + unfold EntityNull_hit. cbn [m_start]. rewrite Hl. cbn [bind].
      rewrite Hmk. reflexivity.
    + now left.
Qed.

(* ================================================================= *)
(** ** Windows that overlap *)

Lemma for_each_two {A} (body : A -> option (list Finding)) p x1 q x2 t
    rs r1 r2 :
  for_each body (p ++ x1 :: q ++ x2 :: t) = Some rs ->
  body x1 = Some r1 -> body x2 = Some r2 ->
  exists a b c, rs = a ++ r1 ++ b ++ r2 ++ c.
Proof.
  intros H H1 H2. rewrite for_each_app in H.
  destruct (for_each body p) as [a|]; [|discriminate].
  cbn [bind for_each] in H. rewrite H1 in H. cbn [bind] in H.
  rewrite for_each_app in H.
  destruct (for_each body q) as [b|]; [|discriminate].
  cbn [bind for_each] in H. rewrite H2 in H. cbn [bind] in H.
  destruct (for_each body t) as [c|]; [|discriminate].
  cbn [bind] in H. injection H as <-. exists a, b, c. reflexivity.
Qed.

Lemma nth_error_enumerate_at lines i l :
  nth_error lines i = Some l -> nth_error (enumerate lines) i = Some (i, l).
Proof.
  unfold enumerate. intros H.
  assert (G : forall (ls : list str) k a,
             nth_error ls k = Some l ->
             nth_error (combine (seq a (length ls)) ls) k = Some (k + a, l)).
  { induction ls as [|x ls IH]; intros k a Hk; [destruct k; discriminate|].
    destruct k as [|k]; simpl in Hk |- *.
    - injection Hk as ->. reflexivity.
    - rewrite (IH k (S a) Hk). f_equal. f_equal. lia. }
  rewrite (G lines i 0 H). now rewrite Nat.add_0_r.
Qed.

Lemma enumerate_two lines i1 i2 l1 l2 :
  i1 < i2 ->
  nth_error lines i1 = Some l1 -> nth_error lines i2 = Some l2 ->
  exists p q t, enumerate lines = p ++ (i1, l1) :: q ++ (i2, l2) :: t.
Proof.
  intros Hlt H1 H2.
  apply nth_error_enumerate_at in H1. apply nth_error_enumerate_at in H2.
  destruct (nth_error_split _ _ H1) as (p & rest & E & Hp).
  rewrite E in H2. rewrite nth_error_app2 in H2 by lia.
  replace (i2 - length p) with (S (i2 - length p - 1)) in H2 by lia.
  cbn [nth_error] in H2.
  destruct (nth_error_split _ _ H2) as (q & t & E2 & _).
  exists p, q, t. now rewrite E, E2.
Qed.

(** A line of a window that the loop reaches and reports. *)
Lemma burst_trigger_reports relPath text i j li lj :
  nth_error (splitlines text) i = Some li ->
  search U pat_Burst li = true ->
  i < j < i + 20 ->
  nth_error (splitlines text) j = Some lj ->
  (forall k lk, i < k < j -> nth_error (splitlines text) k = Some lk ->
                closes_window lk = false) ->
  ref_line lj = true ->
  exists r0 r1,
    burst_trigger U relPath (splitlines text) (i, li) =
    Some (r0 ++ Located "Burst+ref" relPath (j + 1) 1 msg_BurstRef :: r1).
Proof.
  intros Hi Hburst Hij Hj Hopen Href.
  set (lines := splitlines text) in *.
  set (e := Nat.min (length lines) (i + 20)).
  assert (Hjlen : j < length lines)
    by (apply nth_error_Some; rewrite Hj; discriminate).
  unfold ref_line in Href.
  apply andb_true_iff in Href. destruct Href as [Href Hal].
  apply andb_true_iff in Href. destruct Href as [Href Hmk].
  apply negb_true_iff in Hal. apply negb_true_iff in Hmk.
  assert (Hhere : exists r1,
            burst_window relPath lines (j :: range (j + 1) e) =
            Some (Located "Burst+ref" relPath (j + 1) 1 msg_BurstRef :: r1)).
  { cbn [burst_window]. rewrite Hj. cbn [bind].
    rewrite Href, Hmk, Hal.
    destruct (closes_window lj); [exists []; reflexivity|].
    destruct (burst_window_valid relPath text (range (j + 1) e))
      as (r1 & Hr1 & _).
    { intros k Hk. apply in_range in Hk. unfold e in Hk. fold lines. lia. }
    fold lines in Hr1. rewrite Hr1. exists r1. reflexivity. }
  destruct Hhere as (r1 & Hhere).
  unfold burst_trigger. rewrite Hburst. fold e.
  rewrite (range_split (i + 1) j e) by (unfold e; lia).
  assert (Hpre : forall k, In k (range (i + 1) j) ->
            exists lk, nth_error lines k = Some lk /\
                       closes_window lk = false).
  { intros k Hk. apply in_range in Hk.
    destruct (nth_error_in_range lines k) as [lk Hlk]; [lia|].
    exists lk. split; [exact Hlk|]. apply (Hopen k lk); [lia|exact Hlk]. }
  destruct (burst_window_goes_on relPath lines (range (i + 1) j)
              (j :: range (j + 1) e) _ Hpre Hhere) as (r0 & Hr0).
  exists r0, r1. exact Hr0.
Qed.

(** X16.  Two attribute lines whose windows both reach a line with a ref
    parameter give two findings for that line: when lines [i1 < i2 < j]
    are such that both [i1] and [i2] hold the attribute, [j] is one of the
    19 lines after [i1], no line between [i1] and [j] ends the window, and
    line [j] is one that the rule reports, the finding for line [j] is
    twice in the results. *)
Theorem overlapping_windows_report_twice relPath text i1 i2 j l1 l2 lj :
  nth_error (splitlines text) i1 = Some l1 ->
  search U pat_Burst l1 = true ->
  nth_error (splitlines text) i2 = Some l2 ->
  search U pat_Burst l2 = true ->
  i1 < i2 -> i2 < j -> j < i1 + 20 ->
  nth_error (splitlines text) j = Some lj ->
  (forall k lk, i1 < k < j -> nth_error (splitlines text) k = Some lk ->
                closes_window lk = false) ->
  contains (py "ref ") lj = true ->
  has_marker lj = false ->
  contains (py "ref SystemState") lj = false ->
  exists a b c,
    BurstRef_loop U relPath text =
    Some (a ++ Located "Burst+ref" relPath (j + 1) 1 msg_BurstRef ::
          b ++ Located "Burst+ref" relPath (j + 1) 1 msg_BurstRef :: c).
Proof.
  intros H1 Hb1 H2 Hb2 H12 H2j Hj1 Hj Hopen Href Hmk Hal.
  assert (Hrl : ref_line lj = true)
    by (unfold ref_line; now rewrite Href, Hmk, Hal).
  destruct (burst_trigger_reports relPath text i1 j l1 lj H1 Hb1
              ltac:(lia) Hj Hopen Hrl) as (a1 & c1 & T1).
  destruct (burst_trigger_reports relPath text i2 j l2 lj H2 Hb2
              ltac:(lia) Hj) as (a2 & c2 & T2); [|exact Hrl|].
  { intros k lk Hk. apply Hopen. lia. }
  destruct (BurstRef_loop_valid U relPath text) as (fs & Hfs & _).
  rewrite Hfs. unfold BurstRef_loop in Hfs.
  destruct (enumerate_two _ _ _ _ _ H12 H1 H2) as (p & q & t & E).
  rewrite E in Hfs.
  destruct (for_each_two _ _ _ _ _ _ _ _ _ Hfs T1 T2) as (a & b & c & ->).
  exists (a ++ a1), (c1 ++ b ++ a2), (c2 ++ c).
  f_equal. repeat (rewrite <- app_assoc || rewrite <- app_comm_cons).
  reflexivity.
Qed.

End Coverage.

(* ================================================================= *)
(** ** The further theorems at work *)

(** X1 at work on a file with "\r\n" line ends. *)
Lemma position_in_its_line_witness :
  line_of (crlf_before ++ crlf_line ++ crlf_after) (length crlf_before + 4) =
    2 /\
  col_of (crlf_before ++ crlf_line ++ crlf_after) (length crlf_before + 4) =
    5%Z /\
  line_at (crlf_before ++ crlf_line ++ crlf_after) 1 = Some crlf_line.
Proof.
  apply (position_in_its_line crlf_before crlf_line crlf_after 4);
    try reflexivity.
  vm_compute. lia.
Defined.

(** X5 at work: the story comment two lines above an attribute. *)
Lemma story_comment_found_above_witness :
  exists l,
    nth_error (splitlines file_story_above_attribute) 0 = Some l /\
    startswith (lstrip l) (py "//") = true /\
    contains (py "Story:") (lstrip l) = true.
Proof.
  destruct (story_comment_found_above
              (splitlines file_story_above_attribute) 4 0)
    as (_ & _ & H & _).
  - vm_compute. reflexivity.
  - exact H.
Defined.

(** X8 at work: the declaration on the fourth line of a file. *)
Lemma anchored_match_column_witness :
  col_of file_story_above_attribute
    (m_start (first_match public_type_pattern file_story_above_attribute)) =
  1%Z.
Proof.
  apply (anchored_match_column ascii_tables file_story_above_attribute
           (first_match public_type_pattern file_story_above_attribute)).
  right. vm_compute. left. reflexivity.
Defined.

(** X9 at work with the default tokens. *)
Lemma skipped_directory_has_ignored_part_witness :
  dir_skipped cfg_default path_Library = true <->
  exists tok, In tok (IgnoreFolderTokens cfg_default) /\ tok <> [] /\
              In tok (split_slash path_Library).
Proof.
  apply (skipped_directory_has_ignored_part cfg_default path_Library).
  reflexivity.
Defined.

(** X16 at work: two lines that hold the attribute, then a ref parameter. *)
Lemma overlapping_windows_report_twice_witness :
  exists a b c,
    BurstRef_loop ascii_tables path_Grid file_two_attributes =
    Some (a ++ Located "Burst+ref" path_Grid 3 1 msg_BurstRef ::
          b ++ Located "Burst+ref" path_Grid 3 1 msg_BurstRef :: c).
Proof.
  apply (overlapping_windows_report_twice ascii_tables path_Grid
           file_two_attributes 0 1 2
           (py "// [BurstCompile] goes on the job")
           (py "// and [BurstCompile] on the method")
           line_ref_param); try (vm_compute; reflexivity); try lia.
  intros k lk Hk Hn. destruct k as [|[|k]]; try lia.
  vm_compute in Hn. injection Hn as <-. vm_compute. reflexivity.
Defined.
